(** * movie-recommendation: the recommendation core of [app.py]

    A shallow embedding of the module-level data preparation
    ([movies], [ratings], [data], [user_movie_rating]), of the two
    recommendation functions ([get_top_rated_movies],
    [get_recommendations]) and of the [/recommend] handler, followed by the
    properties of the specification. The [/] handler ([index]) lists the
    titles for the form.

    Conventions.
    - A [float64] value is a primitive binary64 float; [NaN] is pandas'
      missing value.
    - A DataFrame is the list of its rows, a Series the list of its
      (label, value) pairs, in index order.
    - Python integers are [Z].
    - The numeric routines that pandas and numpy provide and whose exact
      rounding or tie order the program does not fix (the group mean, the
      Pearson coefficient, the unstable [quicksort] behind [sort_values])
      are the fields of the class [Kernel]; [reference_kernel] is one
      implementation of it. *)

From Stdlib Require Import ZArith List String Ascii Bool Lia.
From Stdlib Require Import Floats Uint63 DecimalString DecimalPos DecimalZ.
From Stdlib Require Import Sorting.Permutation Sorting.Sorted.
Import ListNotations.
Local Open Scope string_scope.
Local Open Scope list_scope.
Local Open Scope Z_scope.

Set Implicit Arguments.

(* ================================================================== *)
(** ** Cells of the two CSV files *)

(** A cell of a key column as [read_csv] delivers it: an integer when the
    column parses as [int64], the text otherwise. *)
Inductive KeyCell : Type :=
| KInt (z : Z)
| KStr (s : string).

(** [.astype(str)] on a key cell: Python's [str] of the value. *)
Definition astype_str (k : KeyCell) : string :=
  match k with
  | KInt z => NilZero.string_of_int (Z.to_int z)
  | KStr s => s
  end.

(** A cell of the [rating] column: a value that [pd.to_numeric] reads as
    the number [f], or a text that it cannot read as a number. *)
Inductive RatingCell : Type :=
| RNum (f : float)
| RText (s : string).

(** [pd.to_numeric(..., errors='coerce')] on one cell: what is not a number
    becomes NaN. *)
Definition to_numeric_coerce (c : RatingCell) : float :=
  match c with
  | RNum f => f
  | RText _ => nan
  end.

Definition isna (f : float) : bool := is_nan f.
Definition notna (f : float) : bool := negb (is_nan f).

(* ================================================================== *)
(** ** Rows *)

(** A row of [movies_100k.csv] (columns [movie_id], [movie_title]); a
    missing title is [None]. *)
Record RawMovie : Type := mkRawMovie {
  movie_id : KeyCell;
  movie_title : option string
}.

(** A row of [movies] after the [rename] and the [astype(str)]. *)
Record Movie : Type := mkMovie {
  m_movieId : string;
  m_title : option string
}.

(** A row of [ratings_100k.csv]. *)
Record RawRating : Type := mkRawRating {
  raw_userId : Z;
  raw_movieId : KeyCell;
  raw_rating : RatingCell
}.

(** A row of [ratings] after the [astype(str)]. *)
Record Rating : Type := mkRating {
  r_userId : Z;
  r_movieId : string;
  r_rating : RatingCell
}.

(** A row of [data]; [R] is the type of the [rating] column, [RatingCell]
    out of the merge and [float] after [to_numeric]. *)
Record DataRow (R : Type) : Type := mkData {
  userId : Z;
  movieId : string;
  rating : R;
  title : option string
}.

(* ================================================================== *)
(** ** Generic list helpers: sorted unique labels *)

Section SortedUnique.
Context {A : Type}.
Variable eq_dec : forall x y : A, {x = y} + {x <> y}.
Variable le : A -> A -> bool.

Fixpoint insert_label (x : A) (l : list A) : list A :=
  match l with
  | [] => [x]
  | y :: l' => if le x y then x :: l else y :: insert_label x l'
  end.

Definition sort_labels (l : list A) : list A :=
  fold_right insert_label [] l.

(** The sorted distinct values of [l], as [groupby] and [unstack] build
    their result index. *)
Definition unique_sorted (l : list A) : list A :=
  sort_labels (nodup eq_dec l).
End SortedUnique.

Definition Z_labels : list Z -> list Z := unique_sorted Z.eq_dec Z.leb.
Definition str_labels : list string -> list string :=
  unique_sorted string_dec String.leb.

Definition mem_str (s : string) (l : list string) : bool :=
  existsb (String.eqb s) l.

(** [DataFrame.head(n)] / [Series.head(n)]: the first [n] rows, and for a
    negative [n] all rows but the last [-n]. *)
Definition head {A : Type} (n : Z) (l : list A) : list A :=
  if 0 <=? n then firstn (Z.to_nat n) l
  else firstn (List.length l - Z.to_nat (- n))%nat l.

(* ================================================================== *)
(** ** The numeric kernel of pandas / numpy *)

Class Kernel : Type := {
  (** mean of a non-empty list of non-NaN values ([GroupBy.mean]) *)
  agg_mean : list float -> float;
  (** Pearson coefficient of a non-empty list of complete observations *)
  pearson : list (float * float) -> float;
  (** rows reordered by numpy's [argsort] of their NaN-free keys,
      ascending; the order of equal keys is the sort's own *)
  take_argsort : forall A : Type, (A -> float) -> list A -> list A;
  take_argsort_perm :
    forall (A : Type) (key : A -> float) (l : list A),
      Permutation (take_argsort key l) l;
  take_argsort_sorted :
    forall (A : Type) (key : A -> float) (l : list A),
      Forall (fun a => is_nan (key a) = false) l ->
      Sorted (fun a b => PrimFloat.leb (key a) (key b) = true)
             (take_argsort key l)
}.

(* ================================================================== *)
(** ** The program *)

(** The pivot table: the row labels (user ids) and, per column label
    (title), the values of the column in the order of the row labels. *)
Record Frame : Type := mkFrame {
  df_index : list Z;
  df_columns : list (string * list float)
}.

(** The module-level names of [app.py] once the module has been loaded. *)
Record Globals : Type := mkGlobals {
  movies : list Movie;
  ratings : list Rating;
  data : list (DataRow float);
  user_movie_rating : Frame
}.

(** One row of [rating_stats]: the group label and its two aggregates. *)
Record Stats : Type := mkStats {
  st_title : string;
  st_count : Z;
  st_mean : float
}.

(** A Series indexed by titles. *)
Definition Series : Type := list (string * float).

Definition pair_dec (x y : Z * string) : {x = y} + {x <> y}.
Proof. decide equality; [apply string_dec | apply Z.eq_dec]. Defined.

Section Program.
Context {K : Kernel}.

(** *** Module level: loading, join, coercion, pivot *)

(** [movies.rename(...)] and [movies['movieId'].astype(str)]. *)
Definition prepare_movies (raw : list RawMovie) : list Movie :=
  map (fun m => mkMovie (astype_str (movie_id m)) (movie_title m)) raw.

(** [ratings['movieId'].astype(str)]. *)
Definition prepare_ratings (raw : list RawRating) : list Rating :=
  map (fun r => mkRating (raw_userId r) (astype_str (raw_movieId r))
                         (raw_rating r)) raw.

(** [pd.merge(ratings, movies, on='movieId')]: the inner join, in the
    order of the left rows. *)
Definition merge (rs : list Rating) (ms : list Movie)
  : list (DataRow RatingCell) :=
  flat_map
    (fun r =>
       map (fun m => mkData (r_userId r) (r_movieId r) (r_rating r)
                            (m_title m))
           (filter (fun m => String.eqb (r_movieId r) (m_movieId m)) ms))
    rs.

(** [data['rating'] = pd.to_numeric(data['rating'], errors='coerce')]. *)
Definition coerce_rating (d : list (DataRow RatingCell))
  : list (DataRow float) :=
  map (fun r => mkData (userId r) (movieId r)
                       (to_numeric_coerce (rating r)) (title r)) d.

Definition has_title (t : string) (r : DataRow float) : bool :=
  match title r with
  | Some t' => String.eqb t t'
  | None => false
  end.

(** The group keys of [groupby('title')]: rows without a title are
    dropped, the keys are sorted. *)
Definition group_keys (d : list (DataRow float)) : list string :=
  str_labels
    (flat_map (fun r => match title r with Some t => [t] | None => [] end)
              d).

(** [count]: the number of values that are not NaN. *)
Definition group_count (vs : list float) : Z :=
  Z.of_nat (List.length (filter notna vs)).

(** [mean]: the mean of the values that are not NaN, NaN when there is
    none. *)
Definition group_mean (vs : list float) : float :=
  match filter notna vs with
  | [] => nan
  | v :: vs' => agg_mean (v :: vs')
  end.

Definition in_cell (u : Z) (t : string) (r : DataRow float) : bool :=
  (userId r =? u) && has_title t r.

(** The groups of [groupby(['userId', 'title'])]. *)
Definition pair_keys (d : list (DataRow float)) : list (Z * string) :=
  nodup pair_dec
    (flat_map
       (fun r => match title r with
                 | Some t => [(userId r, t)]
                 | None => []
                 end) d).

(** [grouped.agg('mean')] followed by [agged.dropna(how='all')]: one
    entry per (user, title) group whose mean is a number. *)
Definition agged (d : list (DataRow float)) : list (Z * string * float) :=
  filter (fun e => notna (snd e))
    (map (fun ut =>
            (ut, group_mean
                   (map (@rating float)
                        (filter (in_cell (fst ut) (snd ut)) d))))
         (pair_keys d)).

Definition lookup_agg (a : list (Z * string * float)) (u : Z) (t : string)
  : float :=
  match find (fun e => (fst (fst e) =? u) && String.eqb (snd (fst e)) t) a
  with
  | Some e => snd e
  | None => nan
  end.

(** [data.pivot_table(index='userId', columns='title', values='rating')]:
    the aggregated groups unstacked on sorted row and column labels,
    NaN where a (user, title) pair has no group, and then
    [dropna(how='all', axis=1)]. *)
Definition pivot_rows (d : list (DataRow float)) : list Z :=
  Z_labels (map (fun e => fst (fst e)) (agged d)).

Definition pivot_cols (d : list (DataRow float))
  : list (string * list float) :=
  filter (fun c => existsb notna (snd c))
    (map (fun t => (t, map (fun u => lookup_agg (agged d) u t)
                           (pivot_rows d)))
         (str_labels (map (fun e => snd (fst e)) (agged d)))).

Definition pivot_table (d : list (DataRow float)) : Frame :=
  mkFrame (pivot_rows d) (pivot_cols d).

(** The module body after the two [read_csv] calls. *)
Definition load (raw_movies : list RawMovie) (raw_ratings : list RawRating)
  : Globals :=
  let movies := prepare_movies raw_movies in
  let ratings := prepare_ratings raw_ratings in
  let data := coerce_rating (merge ratings movies) in
  mkGlobals movies ratings data (pivot_table data).

(** *** pandas operations used by the two functions *)

(** [sort_values(ascending=False)] with the default [na_position='last']:
    the rows whose key is a number, reversed, argsorted and reversed
    again, then the rows whose key is NaN in their original order. *)
Definition sort_values_desc {A : Type} (key : A -> float) (l : list A)
  : list A :=
  rev (take_argsort key (rev (filter (fun a => notna (key a)) l)))
  ++ filter (fun a => isna (key a)) l.

(** [user_movie_rating.columns]. *)
Definition columns (g : Globals) : list string :=
  map fst (df_columns (user_movie_rating g)).

(** [user_movie_rating[t]], for a [t] among the columns. *)
Definition getitem (g : Globals) (t : string) : list float :=
  match find (fun c => String.eqb t (fst c))
             (df_columns (user_movie_rating g)) with
  | Some c => snd c
  | None => []
  end.

(** [Series.corr]: the Pearson coefficient over the rows where both
    values are numbers, NaN when there is no such row. *)
Definition series_corr (a b : list float) : float :=
  match filter (fun p => notna (fst p) && notna (snd p)) (combine a b) with
  | [] => nan
  | p :: ps => pearson (p :: ps)
  end.

(** [user_movie_rating.corrwith(other)]. *)
Definition corrwith (g : Globals) (other : list float) : Series :=
  map (fun c => (fst c, series_corr other (snd c)))
      (df_columns (user_movie_rating g)).

Definition series_get (s : Series) (k : string) : float :=
  match find (fun e => String.eqb k (fst e)) s with
  | Some e => snd e
  | None => nan
  end.

(** The index of the outer alignment of two Series. *)
Definition join_outer (ia ib : list string) : list string :=
  if list_eq_dec string_dec ia ib then ia
  else match ia, ib with
       | [], _ => ib
       | _, [] => ia
       | _, _ => str_labels (ia ++ ib)
       end.

(** One position of [add(..., fill_value=fill)]: a NaN facing a number
    is replaced by [fill]; two NaN stay NaN. *)
Definition add_filled (fill x y : float) : float :=
  let x' := if isna x && notna y then fill else x in
  let y' := if isna y && notna x then fill else y in
  PrimFloat.add x' y'.

(** [a.add(b, fill_value=fill)]. *)
Definition series_add (fill : float) (a b : Series) : Series :=
  map (fun k => (k, add_filled fill (series_get a k) (series_get b k)))
      (join_outer (map fst a) (map fst b)).

(** [drop(labels=labels, errors='ignore')]. *)
Definition drop (labels : list string) (s : Series) : Series :=
  filter (fun e => negb (mem_str (fst e) labels)) s.

(** *** The two recommendation functions *)

(** [rating_stats = data.groupby('title')['rating'].agg(['count','mean'])] *)
Definition rating_stats (g : Globals) : list Stats :=
  map (fun t =>
         let vs := map (@rating float) (filter (has_title t) (data g)) in
         mkStats t (group_count vs) (group_mean vs))
      (group_keys (data g)).

(** [popular_movies = rating_stats[rating_stats['count'] > 10]] *)
Definition popular_movies (g : Globals) : list Stats :=
  filter (fun s => 10 <? st_count s) (rating_stats g).

Definition get_top_rated_movies (g : Globals) (n : Z) : list string :=
  let top_movies := head n (sort_values_desc st_mean (popular_movies g)) in
  map st_title top_movies.

(** The body of the [for] loop. *)
Definition add_similar (g : Globals) (similar_scores : Series)
           (movie_title : string) : Series :=
  if negb (mem_str movie_title (columns g)) then similar_scores
  else
    let similar_movies := corrwith g (getitem g movie_title) in
    series_add zero similar_scores similar_movies.

Definition similar_scores (g : Globals) (selected_movies : list string)
  : Series :=
  fold_left (add_similar g) selected_movies [].

Definition get_recommendations (g : Globals)
           (selected_movies : list string) (n : Z) : list string :=
  let recommendations :=
    sort_values_desc (@snd string float)
                     (similar_scores g selected_movies) in
  let recommendations := drop selected_movies recommendations in
  map fst (head n recommendations).
End Program.

(* ================================================================== *)
(** ** The [/recommend] handler *)

(** The three fields of the posted form as [request.form.get] returns
    them: [None] for a field that was not submitted. *)
Record Form : Type := mkForm {
  movie1 : option string;
  movie2 : option string;
  movie3 : option string
}.

(** The arguments handed to [render_template('result.html', ...)]. *)
Record Page : Type := mkPage {
  recommendations : list string;
  title_text : string
}.

(** Python truthiness of a form value: [None] and the empty string are
    false. *)
Definition truthy (m : option string) : bool :=
  match m with
  | Some s => negb (String.eqb s "")
  | None => false
  end.

(** [[m for m in [movie1, movie2, movie3] if m]] *)
Definition selected_of (f : Form) : list string :=
  flat_map (fun m => match m with Some s => [s] | None => [] end)
           (filter truthy [movie1 f; movie2 f; movie3 f]).

Definition ranking_text : string := "未選択のため、高評価の映画を表示します".
Definition top5_text : string := "オススメ映画トップ5".

Section Handler.
Context {K : Kernel}.

Definition recommend (g : Globals) (form : Form) : Page :=
  let selected := selected_of form in
  match selected with
  | [] => mkPage (get_top_rated_movies g 5) ranking_text
  | _ :: _ => mkPage (get_recommendations g selected 5) top5_text
  end.

End Handler.

(* ================================================================== *)
(** ** The [/] handler *)

Definition title_dec (x y : option string) : {x = y} + {x <> y}.
Proof. decide equality; apply string_dec. Defined.

(** [unique()]: the distinct values in their order of first appearance;
    [seen] holds the values met so far. *)
Fixpoint unique_from {A : Type} (eq_dec : forall x y : A, {x = y} + {x <> y})
         (seen : list A) (l : list A) : list A :=
  match l with
  | [] => []
  | x :: l' =>
      if in_dec eq_dec x seen then unique_from eq_dec seen l'
      else x :: unique_from eq_dec (x :: seen) l'
  end.

Definition unique {A : Type} (eq_dec : forall x y : A, {x = y} + {x <> y})
           (l : list A) : list A :=
  unique_from eq_dec [] l.

Definition present_titles (ts : list (option string)) : list string :=
  flat_map (fun t => match t with Some s => [s] | None => [] end) ts.

Definition missing_title (t : option string) : bool :=
  match t with
  | Some _ => false
  | None => true
  end.

(** [sort_values()] on a column of titles that [read_csv] delivered as
    text (dtype [object]: some title is not a numeral): the titles in
    ascending order of the strings, then the missing ones. Equal titles
    are the same value, so the sorted column does not depend on the order
    in which a sort leaves equal keys. *)
Definition sort_values_titles (ts : list (option string))
  : list (option string) :=
  map Some (sort_labels String.leb (present_titles ts))
  ++ filter missing_title ts.

(** [all_titles = movies['title'].sort_values().unique()] *)
Definition all_titles (g : Globals) : list (option string) :=
  unique title_dec (sort_values_titles (map m_title (movies g))).

(** The [movies] argument handed to [render_template('index.html', ...)]. *)
Definition index (g : Globals) : list (option string) :=
  all_titles g.

(* ================================================================== *)
(** ** Exceptions *)

(** The exceptions of the model: the one the module catches, the
    [KeyError] of a look-up (with the labels that were not found), and any
    other exception by its name. *)
Inductive Exn : Type :=
| UnicodeDecodeError
| KeyError (labels : list string)
| OtherError (name : string).

Definition Result (A : Type) : Type := (Exn + A)%type.

Definition bind {A B : Type} (c : Result A) (k : A -> Result B) : Result B :=
  match c with
  | inl e => inl e
  | inr a => k a
  end.

Notation "x <- c ;; k" := (bind c (fun x => k))
  (at level 61, c at next level, right associativity).

(** [try: body  except UnicodeDecodeError: handler] *)
Definition try_except_UnicodeDecodeError {A : Type}
           (body handler : Result A) : Result A :=
  match body with
  | inl UnicodeDecodeError => handler
  | other => other
  end.

(* ================================================================== *)
(** ** Start-up: the module body *)

Inductive Encoding : Type := utf_8 | cp932.

(** What [read_csv] delivers for the movie file: the columns the module
    uses, each [None] when the file does not have it. The key column is
    the one named [movie_id] (or already [movieId]), the title column the
    one named [movie_title] (or already [title]): [rename] leaves a name
    it does not find as it is. The columns of a table have the same
    length. *)
Record MovieTable : Type := mkMovieTable {
  movie_id_column : option (list KeyCell);
  movie_title_column : option (list (option string))
}.

(** What [read_csv] delivers for the rating file. *)
Record RatingTable : Type := mkRatingTable {
  userId_column : option (list Z);
  movieId_column : option (list KeyCell);
  rating_column : option (list RatingCell)
}.

(** The outcome of the [read_csv] calls of the module: of the movie file
    under either encoding, and of the rating file (read with the default
    encoding). *)
Record Files : Type := mkFiles {
  read_movies_100k : Encoding -> Result MovieTable;
  read_ratings_100k : Result RatingTable
}.

(** [df[key]]: the column, or [KeyError] when the table has none of that
    name. *)
Definition getitem_column {A : Type} (key : string) (column : option A)
  : Result A :=
  match column with
  | Some c => inr c
  | None => inl (KeyError [key])
  end.

Definition movie_rows (ids : list KeyCell) (titles : list (option string))
  : list RawMovie :=
  map (fun p => mkRawMovie (fst p) (snd p)) (combine ids titles).

Definition rating_rows (users : list Z) (ids : list KeyCell)
           (values : list RatingCell) : list RawRating :=
  map (fun p => mkRawRating (fst p) (fst (snd p)) (snd (snd p)))
      (combine users (combine ids values)).

Section Startup.
Context {K : Kernel}.

(** The module body, in the order of its lines: the two reads, and the
    column look-ups of lines 21, 29, 39 and 43 ([pivot_table] looks up
    [userId] before [title]). An exception that is not caught ends the
    start-up. *)
Definition startup (fs : Files) : Result Globals :=
  movies_table <- try_except_UnicodeDecodeError
                    (read_movies_100k fs utf_8)
                    (read_movies_100k fs cp932) ;;
  movie_ids <- getitem_column "movieId" (movie_id_column movies_table) ;;
  ratings_table <- read_ratings_100k fs ;;
  rating_ids <- getitem_column "movieId" (movieId_column ratings_table) ;;
  values <- getitem_column "rating" (rating_column ratings_table) ;;
  users <- getitem_column "userId" (userId_column ratings_table) ;;
  titles <- getitem_column "title" (movie_title_column movies_table) ;;
  inr (load (movie_rows movie_ids titles)
            (rating_rows users rating_ids values)).
End Startup.

(* ================================================================== *)
(** ** The functions as programs over the module state

    A request runs a function of the module while other requests may be
    running: the module-level names are shared, the local names of a call
    are its own. A program is the sequence of accesses of a call to the
    module-level names, with the exceptions it may raise. *)

Inductive Prog (A : Type) : Type :=
| Ret (a : A)
| Raise (e : Exn)
| ReadGlobals (k : Globals -> Prog A)
| WriteGlobals (g : Globals) (k : Prog A).

Arguments Ret {A} a.
Arguments Raise {A} e.
Arguments ReadGlobals {A} k.
Arguments WriteGlobals {A} g k.

Fixpoint pbind {A B : Type} (p : Prog A) (f : A -> Prog B) : Prog B :=
  match p with
  | Ret a => f a
  | Raise e => Raise e
  | ReadGlobals k => ReadGlobals (fun g => pbind (k g) f)
  | WriteGlobals g k => WriteGlobals g (pbind k f)
  end.

Definition lift {A : Type} (r : Result A) : Prog A :=
  match r with
  | inl e => Raise e
  | inr a => Ret a
  end.

(** A program run on its own from the module state [g]. *)
Fixpoint run_alone {A : Type} (p : Prog A) (g : Globals)
  : Result A * Globals :=
  match p with
  | Ret a => (inr a, g)
  | Raise e => (inl e, g)
  | ReadGlobals k => run_alone (k g) g
  | WriteGlobals g' k => run_alone k g'
  end.

(** One access of a running program. *)
Definition step {A : Type} (p : Prog A) (g : Globals) : Prog A * Globals :=
  match p with
  | ReadGlobals k => (k g, g)
  | WriteGlobals g' k => (k, g')
  | Ret _ | Raise _ => (p, g)
  end.

Definition finished {A : Type} (p : Prog A) : bool :=
  match p with
  | Ret _ | Raise _ => true
  | ReadGlobals _ | WriteGlobals _ _ => false
  end.

Fixpoint replace_nth {A : Type} (i : nat) (x : A) (l : list A) : list A :=
  match l, i with
  | [], _ => []
  | _ :: l', O => x :: l'
  | y :: l', S i' => y :: replace_nth i' x l'
  end.

(** The running programs [pool] interleaved: at each turn the schedule
    names the program that makes its next access. *)
Fixpoint interleave {A : Type} (schedule : list nat) (pool : list (Prog A))
         (g : Globals) : list (Prog A) * Globals :=
  match schedule with
  | [] => (pool, g)
  | i :: schedule' =>
      match nth_error pool i with
      | Some p =>
          let (p', g') := step p g in
          interleave schedule' (replace_nth i p' pool) g'
      | None => interleave schedule' pool g
      end
  end.

(** [user_movie_rating[t]]: [KeyError] when [t] is not a column. *)
Definition getitem_checked (g : Globals) (t : string) : Result (list float) :=
  match find (fun c => String.eqb t (fst c))
             (df_columns (user_movie_rating g)) with
  | Some c => inr (snd c)
  | None => inl (KeyError [t])
  end.

(** The [errors] argument of [drop]. *)
Inductive DropErrors : Type := errors_raise | errors_ignore.

(** [s.drop(labels=labels, errors=errors)]: with [errors='raise'] the
    labels that are not in the index raise [KeyError]. *)
Definition drop_labels (errors : DropErrors) (labels : list string)
           (s : Series) : Result Series :=
  match errors with
  | errors_ignore => inr (drop labels s)
  | errors_raise =>
      match filter (fun l => negb (mem_str l (map fst s))) labels with
      | [] => inr (drop labels s)
      | missing => inl (KeyError missing)
      end
  end.

Section Programs.
Context {K : Kernel}.

(** Lines 50 to 60: one access, to [data] on line 53. *)
Definition get_top_rated_movies_py (n : Z) : Prog (list string) :=
  ReadGlobals (fun g => Ret (get_top_rated_movies g n)).

(** The [for] loop of lines 66 to 74: [user_movie_rating] is evaluated on
    line 67 and twice on line 71. *)
Fixpoint add_similar_py (selected_movies : list string)
         (similar_scores : Series) : Prog Series :=
  match selected_movies with
  | [] => Ret similar_scores
  | movie_title :: rest =>
      ReadGlobals (fun g67 =>
        if negb (mem_str movie_title (columns g67))
        then add_similar_py rest similar_scores
        else
          ReadGlobals (fun g71 =>
            ReadGlobals (fun g71' =>
              pbind (lift (getitem_checked g71' movie_title))
                    (fun column =>
                       let similar_movies := corrwith g71 column in
                       add_similar_py
                         rest
                         (series_add zero similar_scores similar_movies)))))
  end.

(** Lines 62 to 82. *)
Definition get_recommendations_py (selected_movies : list string) (n : Z)
  : Prog (list string) :=
  pbind (add_similar_py selected_movies [])
        (fun similar_scores =>
           let recommendations :=
             sort_values_desc (@snd string float) similar_scores in
           pbind (lift (drop_labels errors_ignore selected_movies
                                    recommendations))
                 (fun recommendations =>
                    Ret (map fst (head n recommendations)))).

(** Lines 95 to 113. *)
Definition recommend_py (form : Form) : Prog Page :=
  let selected := selected_of form in
  match selected with
  | [] =>
      pbind (get_top_rated_movies_py 5)
            (fun result_movies => Ret (mkPage result_movies ranking_text))
  | _ :: _ =>
      pbind (get_recommendations_py selected 5)
            (fun result_movies => Ret (mkPage result_movies top5_text))
  end.

(** Lines 89 to 93: one access, to [movies]. *)
Definition index_py : Prog (list (option string)) :=
  ReadGlobals (fun g => Ret (index g)).

(** An invocation of one of the two recommendation functions. *)
Inductive Call : Type :=
| CallTopRated (n : Z)
| CallRecommendations (selected_movies : list string) (n : Z).

Definition program (c : Call) : Prog (list string) :=
  match c with
  | CallTopRated n => get_top_rated_movies_py n
  | CallRecommendations selected_movies n =>
      get_recommendations_py selected_movies n
  end.

(** The number of accesses after which the call has returned. *)
Definition accesses (c : Call) : nat :=
  match c with
  | CallTopRated _ => 1
  | CallRecommendations selected_movies _ => 3 * List.length selected_movies
  end.
End Programs.

(* ================================================================== *)
(** ** A reference implementation of the numeric kernel *)

Module Reference.

Definition float_of_nat (n : nat) : float :=
  of_uint63 (Uint63.of_Z (Z.of_nat n)).

Definition fsum (l : list float) : float :=
  fold_left PrimFloat.add l zero.

(** Sum over count. *)
Definition mean (l : list float) : float :=
  PrimFloat.div (fsum l) (float_of_nat (List.length l)).

Definition clip (lo hi x : float) : float :=
  if PrimFloat.ltb x lo then lo
  else if PrimFloat.ltb hi x then hi
  else x.

(** The off-diagonal entry of [numpy.corrcoef]: the covariance over the
    two standard deviations, clipped to [-1, 1]. *)
Definition corrcoef (ps : list (float * float)) : float :=
  let mx := mean (map fst ps) in
  let my := mean (map snd ps) in
  let dof := PrimFloat.sub (float_of_nat (List.length ps)) one in
  let cov f h :=
    PrimFloat.div
      (fsum (map (fun p => PrimFloat.mul (PrimFloat.sub (f p) mx)
                                         (PrimFloat.sub (h p) my)) ps))
      dof in
  let var f m :=
    PrimFloat.div
      (fsum (map (fun p => PrimFloat.mul (PrimFloat.sub (f p) m)
                                         (PrimFloat.sub (f p) m)) ps))
      dof in
  let cxy := cov fst snd in
  let r := PrimFloat.div
             (PrimFloat.div cxy (PrimFloat.sqrt (var fst mx)))
             (PrimFloat.sqrt (var snd my)) in
  clip (PrimFloat.opp one) one r.

(** Insertion sort on the keys (a stable sort). *)
Fixpoint insert_by {A : Type} (key : A -> float) (x : A) (l : list A)
  : list A :=
  match l with
  | [] => [x]
  | y :: l' =>
      if PrimFloat.leb (key x) (key y) then x :: l
      else y :: insert_by key x l'
  end.

Definition sort_by {A : Type} (key : A -> float) (l : list A) : list A :=
  fold_right (insert_by key) [] l.

End Reference.

(* ================================================================== *)
(** ** Example datasets *)

Module Example.

Definition f1 : float := 1%float.
Definition f2 : float := 2%float.
Definition f3 : float := 3%float.
Definition f5 : float := 5%float.

(** Three movies; eleven users rate the first two, ten users the third. *)
Definition raw_movies : list RawMovie :=
  [ mkRawMovie (KInt 1) (Some "A");
    mkRawMovie (KInt 2) (Some "B");
    mkRawMovie (KInt 3) (Some "C") ].

Definition rate (m : Z) (v : float) (users : list nat) : list RawRating :=
  map (fun u => mkRawRating (Z.of_nat u) (KInt m) (RNum v)) users.

Definition raw_ratings : list RawRating :=
  rate 1 f5 (seq 1 11) ++ rate 2 f3 (seq 1 11) ++ rate 3 f5 (seq 1 10).

(** A small rating matrix: users 1 to 3 rate A with 1, 2, 3 and B with
    3, 2, 1; user 4 rates only C; one rating names a movie without
    metadata, and user 5 rates D with a text that is not a number. *)
Definition sim_movies : list RawMovie :=
  [ mkRawMovie (KInt 1) (Some "A");
    mkRawMovie (KInt 2) (Some "B");
    mkRawMovie (KInt 3) (Some "C");
    mkRawMovie (KInt 4) (Some "D") ].

Definition sim_ratings : list RawRating :=
  [ mkRawRating 1 (KInt 1) (RNum f1); mkRawRating 1 (KInt 2) (RNum f3);
    mkRawRating 2 (KInt 1) (RNum f2); mkRawRating 2 (KInt 2) (RNum f2);
    mkRawRating 3 (KInt 1) (RNum f3); mkRawRating 3 (KInt 2) (RNum f1);
    mkRawRating 4 (KInt 3) (RNum f5);
    mkRawRating 4 (KInt 99) (RNum f5);
    mkRawRating 5 (KInt 4) (RText "abc") ].

Definition sim_movie_table : MovieTable :=
  mkMovieTable (Some (map movie_id sim_movies))
               (Some (map movie_title sim_movies)).

Definition sim_rating_table : RatingTable :=
  mkRatingTable (Some (map raw_userId sim_ratings))
                (Some (map raw_movieId sim_ratings))
                (Some (map raw_rating sim_ratings)).

(** The movie file is not valid UTF-8 but reads as cp932. *)
Definition cp932_files : Files :=
  mkFiles
    (fun enc => match enc with
                | utf_8 => inl UnicodeDecodeError
                | cp932 => inr sim_movie_table
                end)
    (inr sim_rating_table).

End Example.

(* ================================================================== *)
(** ** Notions used to state the properties *)

(** [a] may stand before [b] in a descending order with NaN last. *)
Definition descending {A : Type} (key : A -> float) (a b : A) : Prop :=
  is_nan (key b) = true \/
  (is_nan (key a) = false /\ PrimFloat.leb (key b) (key a) = true).

(** The rows of [data] that carry the title [t]. *)
Definition rows_of (g : Globals) (t : string) : list (DataRow float) :=
  filter (has_title t) (data g).

(** The numeric ratings of the title [t] in [data], in row order. *)
Definition valid_ratings (g : Globals) (t : string) : list float :=
  map (@rating float)
      (filter (fun r => has_title t r && notna (rating r)) (data g)).

(** [ranking] is a popularity ranking of [data]: it lists, once each, the
    titles whose count of numeric ratings exceeds 10, each with that count
    and the mean of those ratings, in descending order of the mean. *)
Definition popularity_ranking {K : Kernel} (g : Globals)
           (ranking : list Stats) : Prop :=
  NoDup (map st_title ranking)
  /\ (forall s, In s ranking <->
        In (Some (st_title s)) (map (@title float) (data g))
        /\ st_count s = Z.of_nat (List.length (valid_ratings g (st_title s)))
        /\ st_mean s = agg_mean (valid_ratings g (st_title s))
        /\ 10 < st_count s)
  /\ StronglySorted (descending st_mean) ranking.

(** The titles of [selected_movies] that are columns of the rating matrix,
    in the order of the list. *)
Definition known_titles (g : Globals) (selected_movies : list string)
  : list string :=
  filter (fun t => mem_str t (columns g)) selected_movies.

(** The score of the column [col]: its correlations with the columns of the
    titles [known], added up from a missing entry; a NaN facing a number
    counts as 0 and NaN plus NaN stays NaN. *)
Definition summed_score {K : Kernel} (g : Globals) (known : list string)
           (col : list float) : float :=
  fold_left (add_filled zero)
            (map (fun s => series_corr (getitem g s) col) known)
            nan.

(** The score Series: empty when no selected title is a column, else one
    entry per column of the rating matrix. *)
Definition summed_scores {K : Kernel} (g : Globals)
           (selected_movies : list string) : Series :=
  match known_titles g selected_movies with
  | [] => []
  | known =>
      map (fun c => (fst c, summed_score g known (snd c)))
          (df_columns (user_movie_rating g))
  end.

(** [ranking] holds the entries of the score Series in descending order of
    the score, the NaN scores last. *)
Definition similarity_ranking {K : Kernel} (g : Globals)
           (selected_movies : list string) (ranking : Series) : Prop :=
  Permutation ranking (summed_scores g selected_movies)
  /\ StronglySorted (descending (@snd string float)) ranking.

(** *** The recommendation as the specification words it

    Every missing correlation counts as 0 in the sum. *)
Module Spec.

Definition zero_if_missing (x : float) : float :=
  if is_nan x then zero else x.

Definition summed_score {K : Kernel} (g : Globals) (known : list string)
           (col : list float) : float :=
  fold_left
    (fun acc s =>
       PrimFloat.add acc (zero_if_missing (series_corr (getitem g s) col)))
    known zero.

Definition summed_scores {K : Kernel} (g : Globals)
           (selected_movies : list string) : Series :=
  match known_titles g selected_movies with
  | [] => []
  | known =>
      map (fun c => (fst c, summed_score g known (snd c)))
          (df_columns (user_movie_rating g))
  end.

Definition get_recommendations {K : Kernel} (g : Globals)
           (selected_movies : list string) (n : Z) : list string :=
  map fst
      (head n (drop selected_movies
                    (sort_values_desc (@snd string float)
                                      (summed_scores g selected_movies)))).

End Spec.

(** The numeric ratings that user [u] gave the title [t] in [d]. *)
Definition cell_ratings (d : list (DataRow float)) (u : Z) (t : string)
  : list float :=
  map (@rating float)
      (filter (fun r => in_cell u t r && notna (rating r)) d).

(** Their mean; NaN when there is none. *)
Definition cell_value {K : Kernel} (d : list (DataRow float)) (u : Z)
           (t : string) : float :=
  match cell_ratings d u t with
  | [] => nan
  | v :: vs => agg_mean (v :: vs)
  end.

(** [f] is the user x title rating matrix of [d]: distinct row and column
    labels; a row for each user and a column for each title with a
    (user, title) mean that is a number; each entry that mean, or NaN when
    the mean is not a number, in particular when the user has no row of
    [d] for the title. *)
Definition rating_matrix {K : Kernel} (d : list (DataRow float)) (f : Frame)
  : Prop :=
  NoDup (df_index f)
  /\ NoDup (map fst (df_columns f))
  /\ (forall u, In u (df_index f) <->
                exists t, notna (cell_value d u t) = true)
  /\ (forall t, In t (map fst (df_columns f)) <->
                exists u, notna (cell_value d u t) = true)
  /\ (forall t col, In (t, col) (df_columns f) ->
        col = map (fun u => if notna (cell_value d u t)
                            then cell_value d u t else nan)
                  (df_index f))
  /\ (forall u t, (forall r, In r d -> in_cell u t r = false) ->
                  notna (cell_value d u t) = false).

(** The raw rating row [r] names a movie of the metadata: some metadata
    row has the same [movieId] string. *)
Definition has_metadata (raw_movies : list RawMovie) (r : RawRating) : bool :=
  existsb (fun m => String.eqb (astype_str (raw_movieId r))
                               (astype_str (movie_id m)))
          raw_movies.

(** The rating part of a joined row, and the joined form of a raw rating
    row. *)
Definition rating_part (r : DataRow float) : Z * string * float :=
  (userId r, movieId r, rating r).

Definition joined_rating (r : RawRating) : Z * string * float :=
  (raw_userId r, astype_str (raw_movieId r), to_numeric_coerce (raw_rating r)).

(** A form field that is missing or the empty string. *)
Definition empty_or_missing (m : option string) : bool :=
  match m with
  | None => true
  | Some EmptyString => true
  | Some (String _ _) => false
  end.

(** The non-empty fields of the form, in the order movie1, movie2,
    movie3. *)
Definition non_empty_fields (f : Form) : list string :=
  fold_right
    (fun m acc => match m with
                  | Some (String c s) => String c s :: acc
                  | _ => acc
                  end)
    [] [movie1 f; movie2 f; movie3 f].

(** The movie file can be read: as UTF-8, or as cp932 after a
    [UnicodeDecodeError] on UTF-8. *)
Definition movies_readable (fs : Files) (t : MovieTable) : Prop :=
  read_movies_100k fs utf_8 = inr t
  \/ (read_movies_100k fs utf_8 = inl UnicodeDecodeError
      /\ read_movies_100k fs cp932 = inr t).

(** The start-up completes with the module state [g]: both files can be
    read and have the columns the module uses. *)
Definition startup_loads {K : Kernel} (fs : Files) (g : Globals) : Prop :=
  exists movie_ids titles users rating_ids values,
    movies_readable fs (mkMovieTable (Some movie_ids) (Some titles))
    /\ read_ratings_100k fs
       = inr (mkRatingTable (Some users) (Some rating_ids) (Some values))
    /\ g = load (movie_rows movie_ids titles)
                (rating_rows users rating_ids values).

(** The start-up ends with the exception [e]: the first line of the module
    body that raises, after the lines before it went through. *)
Inductive startup_raises (fs : Files) : Exn -> Prop :=
| raises_movie_read (e : Exn) :
    read_movies_100k fs utf_8 = inl e -> e <> UnicodeDecodeError ->
    startup_raises fs e
| raises_movie_read_again (e : Exn) :
    read_movies_100k fs utf_8 = inl UnicodeDecodeError ->
    read_movies_100k fs cp932 = inl e ->
    startup_raises fs e
| raises_movie_key (t : MovieTable) :
    movies_readable fs t -> movie_id_column t = None ->
    startup_raises fs (KeyError ["movieId"])
| raises_rating_read (t : MovieTable) (e : Exn) :
    movies_readable fs t -> movie_id_column t <> None ->
    read_ratings_100k fs = inl e ->
    startup_raises fs e
| raises_rating_key (t : MovieTable) (r : RatingTable) :
    movies_readable fs t -> movie_id_column t <> None ->
    read_ratings_100k fs = inr r -> movieId_column r = None ->
    startup_raises fs (KeyError ["movieId"])
| raises_rating_value (t : MovieTable) (r : RatingTable) :
    movies_readable fs t -> movie_id_column t <> None ->
    read_ratings_100k fs = inr r -> movieId_column r <> None ->
    rating_column r = None ->
    startup_raises fs (KeyError ["rating"])
| raises_pivot_index (t : MovieTable) (r : RatingTable) :
    movies_readable fs t -> movie_id_column t <> None ->
    read_ratings_100k fs = inr r -> movieId_column r <> None ->
    rating_column r <> None -> userId_column r = None ->
    startup_raises fs (KeyError ["userId"])
| raises_pivot_columns (t : MovieTable) (r : RatingTable) :
    movies_readable fs t -> movie_id_column t <> None ->
    read_ratings_100k fs = inr r -> movieId_column r <> None ->
    rating_column r <> None -> userId_column r <> None ->
    movie_title_column t = None ->
    startup_raises fs (KeyError ["title"]).

(** A program that never assigns to the module state. *)
Inductive write_free {A : Type} : Prog A -> Prop :=
| write_free_ret (a : A) : write_free (Ret a)
| write_free_raise (e : Exn) : write_free (Raise e)
| write_free_read (k : Globals -> Prog A) :
    (forall g, write_free (k g)) -> write_free (ReadGlobals k).

(** The accesses a program still makes when the module state stays [g]. *)
Fixpoint remaining {A : Type} (p : Prog A) (g : Globals) : nat :=
  match p with
  | Ret _ | Raise _ => 0
  | ReadGlobals k => S (remaining (k g) g)
  | WriteGlobals _ k => S (remaining k g)
  end.

(** The list a call returns as a function of the module state. *)
Definition result {K : Kernel} (c : Call) (g : Globals) : list string :=
  match c with
  | CallTopRated n => get_top_rated_movies g n
  | CallRecommendations selected_movies n =>
      get_recommendations g selected_movies n
  end.

(** A character that occurs in a numeral or a truth value as [read_csv]
    reads one (digits, sign, point, exponent, the letters of inf,
    infinity, nan, true and false) or a blank. *)
Definition numeral_char (c : ascii) : bool :=
  existsb (Ascii.eqb c)
          (list_ascii_of_string
             "0123456789+-.eE infatyINFATYtrueflsTRUEFLS").

(** A title with a character that no numeral and no truth value has: a
    column holding it is read as text. *)
Definition text_title (t : option string) : bool :=
  match t with
  | Some s => existsb (fun c => negb (numeral_char c)) (list_ascii_of_string s)
  | None => false
  end.

(** [a] may stand before [b] in the title list: both are titles in
    ascending order, or [b] is missing. *)
Definition title_le (a b : option string) : Prop :=
  match a, b with
  | Some s, Some s' => String.leb s s' = true
  | _, None => True
  | None, Some _ => False
  end.

(* ================================================================== *)
(** * Properties *)

(** ** Lists *)

Section SortedUniqueFacts.
Context {A : Type}.
Variable eq_dec : forall x y : A, {x = y} + {x <> y}.
Variable le : A -> A -> bool.

Lemma insert_label_perm (x : A) (l : list A) :
  Permutation (insert_label le x l) (x :: l).
Proof.
  induction l as [|y l IH]; simpl.
  - apply Permutation_refl.
  - destruct (le x y).
    + apply Permutation_refl.
    + eapply perm_trans; [apply perm_skip, IH | apply perm_swap].
Qed.

Lemma sort_labels_perm (l : list A) : Permutation (sort_labels le l) l.
Proof.
  induction l as [|x l IH]; simpl.
  - constructor.
  - eapply perm_trans; [apply insert_label_perm | now apply perm_skip].
Qed.

Lemma unique_sorted_In (x : A) (l : list A) :
  In x (unique_sorted eq_dec le l) <-> In x l.
Proof.
  unfold unique_sorted. rewrite <- (nodup_In eq_dec l x). split.
  - apply Permutation_in, sort_labels_perm.
  - apply Permutation_in, Permutation_sym, sort_labels_perm.
Qed.

Lemma unique_sorted_NoDup (l : list A) : NoDup (unique_sorted eq_dec le l).
Proof.
  unfold unique_sorted.
  eapply Permutation_NoDup;
    [apply Permutation_sym, sort_labels_perm | apply NoDup_nodup].
Qed.
End SortedUniqueFacts.

Lemma mem_str_In (s : string) (l : list string) :
  mem_str s l = true <-> In s l.
Proof.
  unfold mem_str. rewrite existsb_exists. split.
  - intros (x & Hx & E). apply String.eqb_eq in E. now subst.
  - intros H. exists s. split; [assumption | apply String.eqb_refl].
Qed.

Lemma head_prefix {A : Type} (n : Z) (l : list A) :
  exists rest, l = head n l ++ rest.
Proof.
  unfold head. destruct (0 <=? n).
  - exists (skipn (Z.to_nat n) l). symmetry. apply firstn_skipn.
  - exists (skipn (List.length l - Z.to_nat (- n)) l).
    symmetry. apply firstn_skipn.
Qed.

Lemma head_In {A : Type} (n : Z) (l : list A) (x : A) :
  In x (head n l) -> In x l.
Proof.
  destruct (head_prefix n l) as [rest E]. intros H.
  rewrite E. apply in_or_app. now left.
Qed.

Lemma head_nonneg {A : Type} (n : Z) (l : list A) :
  0 <= n -> head n l = firstn (Z.to_nat n) l.
Proof.
  intros H. unfold head. apply Z.leb_le in H. now rewrite H.
Qed.

Lemma head_length {A : Type} (n : Z) (l : list A) :
  0 <= n -> Z.of_nat (List.length (head n l)) <= n.
Proof.
  intros H. rewrite (head_nonneg l H), length_firstn. lia.
Qed.

(** ** The reference kernel is a kernel *)

Lemma SFleb_total (a b : spec_float) :
  SFeqb a a = true -> SFeqb b b = true ->
  SFleb a b = false -> SFleb b a = true.
Proof.
  unfold SFeqb, SFleb, SFcompare.
  destruct a as [sa|sa| |sa ma ea], b as [sb|sb| |sb mb eb];
    try destruct sa; try destruct sb; simpl; try congruence.
  all: intros _ _.
  all: rewrite (Z.compare_antisym ea eb);
    destruct (Z.compare ea eb); simpl; try congruence.
  all: change (Pos.compare_cont Eq ma mb) with (Pos.compare ma mb);
    change (Pos.compare_cont Eq mb ma) with (Pos.compare mb ma);
    rewrite (Pos.compare_antisym ma mb);
    destruct (Pos.compare ma mb); simpl; congruence.
Qed.

(** On floats that are not NaN, [<=] is total. *)
Lemma float_leb_total (x y : float) :
  is_nan x = false -> is_nan y = false ->
  PrimFloat.leb x y = false -> PrimFloat.leb y x = true.
Proof.
  unfold is_nan. rewrite !FloatAxioms.eqb_spec, !FloatAxioms.leb_spec.
  intros Hx Hy. apply SFleb_total; now apply negb_false_iff.
Qed.

Lemma SFleb_trans (a b c : spec_float) :
  SFleb a b = true -> SFleb b c = true -> SFleb a c = true.
Proof.
  unfold SFleb, SFcompare.
  destruct a as [sa|sa| |sa ma ea], b as [sb|sb| |sb mb eb],
           c as [sc|sc| |sc mc ec];
    try destruct sa; try destruct sb; try destruct sc; simpl;
      try congruence.
  all: change (Pos.compare_cont Eq) with Pos.compare.
  all: destruct (Z.compare_spec ea eb); destruct (Z.compare_spec eb ec);
    destruct (Z.compare_spec ea ec); simpl; try congruence; try lia.
  all: destruct (Pos.compare_spec ma mb); destruct (Pos.compare_spec mb mc);
    destruct (Pos.compare_spec ma mc); simpl; try congruence; try lia.
Qed.

Lemma float_leb_trans (x y z : float) :
  PrimFloat.leb x y = true -> PrimFloat.leb y z = true ->
  PrimFloat.leb x z = true.
Proof.
  rewrite !FloatAxioms.leb_spec. apply SFleb_trans.
Qed.

Section ReferenceSort.
Context {A : Type}.
Variable key : A -> float.

Let le_key (a b : A) : Prop := PrimFloat.leb (key a) (key b) = true.

Lemma insert_by_perm (x : A) (l : list A) :
  Permutation (Reference.insert_by key x l) (x :: l).
Proof.
  induction l as [|y l IH]; simpl.
  - apply Permutation_refl.
  - destruct (PrimFloat.leb (key x) (key y)).
    + apply Permutation_refl.
    + eapply perm_trans; [apply perm_skip, IH | apply perm_swap].
Qed.

Lemma sort_by_perm (l : list A) : Permutation (Reference.sort_by key l) l.
Proof.
  induction l as [|x l IH]; simpl.
  - constructor.
  - eapply perm_trans; [apply insert_by_perm | now apply perm_skip].
Qed.

Lemma insert_by_HdRel (a x : A) (l : list A) :
  le_key a x -> HdRel le_key a l ->
  HdRel le_key a (Reference.insert_by key x l).
Proof.
  intros Hax Hal. destruct l as [|y l]; simpl.
  - now constructor.
  - destruct (PrimFloat.leb (key x) (key y)); constructor;
      [assumption | now inversion Hal].
Qed.

Lemma insert_by_sorted (x : A) (l : list A) :
  is_nan (key x) = false ->
  Forall (fun a => is_nan (key a) = false) l ->
  Sorted le_key l -> Sorted le_key (Reference.insert_by key x l).
Proof.
  intros Hx Hl Hs. induction Hs as [|y l Hs IH Hd]; simpl.
  - repeat constructor.
  - destruct (PrimFloat.leb (key x) (key y)) eqn:E.
    + constructor; [now constructor | now constructor].
    + inversion Hl as [|? ? Hy Hl']; subst.
      constructor; [now apply IH |].
      apply insert_by_HdRel; [|assumption].
      now apply float_leb_total.
Qed.

Lemma sort_by_sorted (l : list A) :
  Forall (fun a => is_nan (key a) = false) l ->
  Sorted le_key (Reference.sort_by key l).
Proof.
  induction 1 as [|x l Hx Hl IH]; simpl.
  - constructor.
  - apply insert_by_sorted; [assumption | | assumption].
    rewrite Forall_forall in *. intros a Ha. apply Hl.
    eapply Permutation_in; [apply sort_by_perm | exact Ha].
Qed.
End ReferenceSort.

#[export] Instance reference_kernel : Kernel := {|
  agg_mean := Reference.mean;
  pearson := Reference.corrcoef;
  take_argsort := @Reference.sort_by;
  take_argsort_perm := @sort_by_perm;
  take_argsort_sorted := @sort_by_sorted
|}.

(** ** Sorted lists *)

Section SortedFacts.
Context {A : Type}.

Lemma Sorted_snoc (R : A -> A -> Prop) (l : list A) (x : A) :
  Sorted R l -> HdRel (fun a b => R b a) x (rev l) -> Sorted R (l ++ [x]).
Proof.
  induction 1 as [|y l Hs IH Hd]; simpl; intros Hx.
  - repeat constructor.
  - constructor.
    + apply IH. destruct (rev l) as [|z r]; [constructor |].
      simpl in Hx. inversion Hx. now constructor.
    + destruct l as [|z l]; simpl in *.
      * inversion Hx. now constructor.
      * inversion Hd. now constructor.
Qed.

Lemma Sorted_rev (R : A -> A -> Prop) (l : list A) :
  Sorted R l -> Sorted (fun a b => R b a) (rev l).
Proof.
  induction 1 as [|x l Hs IH Hd]; simpl.
  - constructor.
  - apply Sorted_snoc; [assumption |].
    rewrite rev_involutive. destruct Hd; now constructor.
Qed.

Lemma Sorted_app (R : A -> A -> Prop) (l1 l2 : list A) :
  Sorted R l1 -> Sorted R l2 ->
  (forall a b, In a l1 -> In b l2 -> R a b) ->
  Sorted R (l1 ++ l2).
Proof.
  induction 1 as [|x l Hs IH Hd]; simpl; intros H2 Hb; [assumption |].
  constructor.
  - apply IH; [assumption | intros; apply Hb; simpl; auto].
  - destruct l as [|y l]; simpl.
    + destruct l2 as [|z l2]; constructor. apply Hb; simpl; auto.
    + inversion Hd. now constructor.
Qed.

Lemma Sorted_weaken (R R' : A -> A -> Prop) (P : A -> Prop) (l : list A) :
  (forall a b, P a -> P b -> R a b -> R' a b) ->
  Forall P l -> Sorted R l -> Sorted R' l.
Proof.
  intros HR HP Hs. induction Hs as [|x l Hs IH Hd]; [constructor |].
  inversion HP as [|? ? Px Pl]; subst.
  constructor; [now apply IH |].
  destruct Hd as [|y l Hxy]; constructor.
  inversion Pl; subst. now apply HR.
Qed.

Lemma filter_partition_perm (f : A -> bool) (l : list A) :
  Permutation (filter (fun a => negb (f a)) l ++ filter f l) l.
Proof.
  induction l as [|x l IH]; simpl; [constructor |].
  destruct (f x); simpl.
  - apply Permutation_sym, Permutation_cons_app, Permutation_sym, IH.
  - now apply perm_skip.
Qed.
End SortedFacts.

(** ** [sort_values(ascending=False)] *)

Section SortValues.
Context {K : Kernel} {A : Type}.
Variable key : A -> float.

Lemma sort_values_desc_perm (l : list A) :
  Permutation (sort_values_desc key l) l.
Proof.
  unfold sort_values_desc, notna, isna.
  eapply perm_trans; [| apply (filter_partition_perm (fun a => is_nan (key a)))].
  apply Permutation_app_tail.
  eapply perm_trans; [apply Permutation_sym, Permutation_rev |].
  eapply perm_trans; [apply take_argsort_perm |].
  apply Permutation_sym, Permutation_rev.
Qed.

Lemma sort_values_desc_In (l : list A) (a : A) :
  In a (sort_values_desc key l) <-> In a l.
Proof.
  split; apply Permutation_in;
    [| apply Permutation_sym]; apply sort_values_desc_perm.
Qed.

Lemma sort_values_desc_sorted (l : list A) :
  Sorted (descending key) (sort_values_desc key l).
Proof.
  unfold sort_values_desc, notna, isna.
  set (nn := filter (fun a => negb (is_nan (key a))) l).
  assert (Hnn : Forall (fun a => is_nan (key a) = false) (rev nn)).
  { apply Forall_forall. intros a Ha. apply in_rev in Ha.
    apply filter_In in Ha. now apply negb_true_iff. }
  apply Sorted_app.
  - apply Sorted_weaken with
      (R := fun a b => PrimFloat.leb (key b) (key a) = true)
      (P := fun a => is_nan (key a) = false).
    + intros a b Ha _ Hab. right. now split.
    + apply Forall_forall. intros a Ha. apply in_rev in Ha.
      rewrite Forall_forall in Hnn. apply Hnn.
      eapply Permutation_in; [apply take_argsort_perm | exact Ha].
    + apply (Sorted_rev (R := fun a b => PrimFloat.leb (key a) (key b) = true)).
      now apply take_argsort_sorted.
  - apply Sorted_weaken with (R := fun _ _ => True)
                             (P := fun a => is_nan (key a) = true).
    + intros a b _ Hb _. now left.
    + apply Forall_forall. intros a Ha. now apply filter_In in Ha.
    + induction (filter (fun a => is_nan (key a)) l) as [|x r IH];
        constructor; [assumption | destruct r; now constructor].
  - intros a b _ Hb. left. now apply filter_In in Hb.
Qed.
Lemma descending_trans (a b c : A) :
  descending key a b -> descending key b c -> descending key a c.
Proof.
  intros Hab [Hc | [Hb Hcb]]; [now left |].
  destruct Hab as [Hb' | [Ha Hba]]; [congruence |].
  right. split; [assumption |]. now apply float_leb_trans with (key b).
Qed.

(** The result is in descending order throughout: every row stands before
    the rows with a smaller or equal key and before the NaN rows. *)
Lemma sort_values_desc_ordered (l : list A) :
  StronglySorted (descending key) (sort_values_desc key l).
Proof.
  apply Sorted_StronglySorted; [| apply sort_values_desc_sorted].
  intros a b c. apply descending_trans.
Qed.
End SortValues.

(** ** The popularity ranking *)

Lemma has_title_true (t : string) (r : DataRow float) :
  has_title t r = true <-> title r = Some t.
Proof.
  unfold has_title. destruct (title r) as [t'|].
  - rewrite String.eqb_eq. split; [now intros -> | now intros [= ->]].
  - split; discriminate.
Qed.

Lemma filter_map_comm {A B : Type} (f : A -> B) (p : B -> bool) (l : list A) :
  filter p (map f l) = map f (filter (fun a => p (f a)) l).
Proof.
  induction l as [|a l IH]; simpl; [reflexivity |].
  destruct (p (f a)); simpl; now rewrite IH.
Qed.

Lemma filter_andb {A : Type} (p q : A -> bool) (l : list A) :
  filter q (filter p l) = filter (fun a => p a && q a) l.
Proof.
  induction l as [|a l IH]; simpl; [reflexivity |].
  destruct (p a); simpl; [destruct (q a); simpl |]; now rewrite IH.
Qed.

Lemma NoDup_map_filter {A B : Type} (key : A -> B) (keep : A -> bool)
      (xs : list A) :
  NoDup (map key xs) -> NoDup (map key (filter keep xs)).
Proof.
  induction xs as [|a xs IH]; simpl; intros H; [constructor |].
  apply NoDup_cons_iff in H as [Hn Hl].
  destruct (keep a); simpl; [constructor |]; auto.
  intros Hin. apply Hn. apply in_map_iff in Hin as (b & Hb & Hin).
  apply filter_In in Hin. rewrite <- Hb. apply in_map. tauto.
Qed.

Lemma valid_ratings_filter (g : Globals) (t : string) :
  filter notna (map (@rating float) (filter (has_title t) (data g)))
  = valid_ratings g t.
Proof.
  unfold valid_ratings. now rewrite filter_map_comm, filter_andb.
Qed.

Lemma group_keys_In (d : list (DataRow float)) (t : string) :
  In t (group_keys d) <-> In (Some t) (map (@title float) d).
Proof.
  unfold group_keys, str_labels. rewrite unique_sorted_In, in_flat_map.
  rewrite in_map_iff. split.
  - intros (r & Hr & Ht). exists r. split; [| assumption].
    destruct (title r); simpl in Ht; [| contradiction].
    destruct Ht as [-> | []]. reflexivity.
  - intros (r & Ht & Hr). exists r. split; [assumption |].
    rewrite Ht. now left.
Qed.

Section Popularity.
Context {K : Kernel}.

Lemma rating_stats_titles (g : Globals) :
  map st_title (rating_stats g) = group_keys (data g).
Proof.
  unfold rating_stats. rewrite map_map. simpl. apply map_id.
Qed.

(** What a row of [popular_movies] says about its title. *)
Lemma popular_movies_In (g : Globals) (s : Stats) :
  In s (popular_movies g) <->
  In (Some (st_title s)) (map (@title float) (data g))
  /\ st_count s = Z.of_nat (List.length (valid_ratings g (st_title s)))
  /\ st_mean s = agg_mean (valid_ratings g (st_title s))
  /\ 10 < st_count s.
Proof.
  unfold popular_movies, rating_stats.
  rewrite filter_In, in_map_iff, Z.ltb_lt. split.
  - intros [(t & <- & Ht) Hc]. simpl in *.
    unfold group_count, group_mean in *.
    rewrite valid_ratings_filter in *.
    apply group_keys_In in Ht. repeat split; try assumption.
    destruct (valid_ratings g t); [simpl in Hc; lia | reflexivity].
  - intros (Ht & Hc & Hm & H10). split; [| assumption].
    exists (st_title s). split; [| now apply group_keys_In].
    unfold group_count, group_mean. rewrite valid_ratings_filter.
    destruct s as [t c m]. simpl in *. subst c m.
    destruct (valid_ratings g t); [simpl in H10; lia | reflexivity].
Qed.

Lemma popular_movies_NoDup (g : Globals) :
  NoDup (map st_title (popular_movies g)).
Proof.
  apply NoDup_map_filter. rewrite rating_stats_titles.
  apply unique_sorted_NoDup.
Qed.

Lemma top_rated_In (g : Globals) (n : Z) (t : string) :
  In t (get_top_rated_movies g n) ->
  exists s, st_title s = t /\ In s (popular_movies g).
Proof.
  unfold get_top_rated_movies. intros H.
  apply in_map_iff in H as (s & Hs & H). exists s. split; [assumption |].
  apply head_In in H. now apply sort_values_desc_In in H.
Qed.

(** C1 (as amended): for every [n >= 0], [get_top_rated_movies n] is the
    list of the first [n] titles of a ranking that holds, once each, the
    titles of the joined data whose count of numeric ratings exceeds 10,
    each with that count and the mean of those ratings, in descending order
    of the mean; the result has at most [n] elements. *)
Theorem get_top_rated_movies_ranking (g : Globals) (n : Z) :
  0 <= n ->
  exists ranking : list Stats,
    popularity_ranking g ranking
    /\ get_top_rated_movies g n = firstn (Z.to_nat n) (map st_title ranking)
    /\ Z.of_nat (List.length (get_top_rated_movies g n)) <= n.
Proof.
  intros Hn. exists (sort_values_desc st_mean (popular_movies g)).
  split; [split; [| split] | split].
  - eapply Permutation_NoDup; [| apply popular_movies_NoDup].
    apply Permutation_map, Permutation_sym, sort_values_desc_perm.
  - intros s. rewrite sort_values_desc_In. apply popular_movies_In.
  - apply sort_values_desc_ordered.
  - unfold get_top_rated_movies. rewrite (head_nonneg _ Hn).
    symmetry. apply firstn_map.
  - unfold get_top_rated_movies. rewrite length_map. now apply head_length.
Qed.

(** For a negative [n] the result is the ranking without its last [-n]
    titles. *)
Lemma top_rated_all_but_last (g : Globals) (n : Z) :
  n < 0 ->
  let ranking := map st_title (sort_values_desc st_mean (popular_movies g)) in
  get_top_rated_movies g n
  = firstn (List.length ranking - Z.to_nat (- n)) ranking.
Proof.
  intros Hn ranking. unfold get_top_rated_movies, head, ranking.
  destruct (0 <=? n) eqn:E; [apply Z.leb_le in E; lia |].
  now rewrite firstn_map, length_map.
Qed.

(** C10: a title returned by [get_top_rated_movies] has strictly more than
    10 numeric ratings, hence more than 10 rows, in the joined data; neither
    number is exactly 10. *)
Theorem get_top_rated_movies_more_than_10 (g : Globals) (n : Z) (t : string) :
  In t (get_top_rated_movies g n) ->
  10 < Z.of_nat (List.length (valid_ratings g t))
  /\ 10 < Z.of_nat (List.length (rows_of g t))
  /\ Z.of_nat (List.length (valid_ratings g t)) <> 10
  /\ Z.of_nat (List.length (rows_of g t)) <> 10.
Proof.
  intros H. apply top_rated_In in H as (s & <- & Hs).
  apply popular_movies_In in Hs as (_ & Hc & _ & H10).
  rewrite Hc in H10.
  assert (Hle : (List.length (valid_ratings g (st_title s))
                 <= List.length (rows_of g (st_title s)))%nat).
  { unfold valid_ratings, rows_of. rewrite length_map, <- filter_andb.
    apply filter_length_le. }
  lia.
Qed.
End Popularity.

(** ** The examples, loaded with the reference kernel *)

Definition popular_example : Globals :=
  load (K := reference_kernel) Example.raw_movies Example.raw_ratings.

Definition similarity_example : Globals :=
  load (K := reference_kernel) Example.sim_movies Example.sim_ratings.

Lemma get_top_rated_movies_ranking_witness :
  0 <= 1 /\
  exists ranking : list Stats,
    popularity_ranking popular_example ranking
    /\ get_top_rated_movies popular_example 1
       = firstn (Z.to_nat 1) (map st_title ranking)
    /\ Z.of_nat (List.length (get_top_rated_movies popular_example 1)) <= 1.
Proof.
  split; [lia |].
  apply (@get_top_rated_movies_ranking reference_kernel popular_example 1).
  lia.
Defined.

(** With [n = -1] the function returns the ranking without its last title:
    one title, which is more than [n]. *)
Lemma top_rated_exceeds_negative_n :
  get_top_rated_movies popular_example 5 = ["A"; "B"]
  /\ get_top_rated_movies popular_example (-1) = ["A"]
  /\ ~ Z.of_nat (List.length (get_top_rated_movies popular_example (-1)))
       <= -1.
Proof.
  assert (E : get_top_rated_movies popular_example (-1) = ["A"])
    by (vm_compute; reflexivity).
  split; [vm_compute; reflexivity | split; [exact E |]].
  rewrite E. simpl. lia.
Qed.

Lemma get_top_rated_movies_more_than_10_witness :
  In "A" (get_top_rated_movies popular_example 5)
  /\ 10 < Z.of_nat (List.length (valid_ratings popular_example "A"))
  /\ 10 < Z.of_nat (List.length (rows_of popular_example "A"))
  /\ Z.of_nat (List.length (valid_ratings popular_example "A")) <> 10
  /\ Z.of_nat (List.length (rows_of popular_example "A")) <> 10.
Proof.
  assert (H : In "A" (get_top_rated_movies popular_example 5))
    by (vm_compute; auto).
  split; [exact H |].
  exact (@get_top_rated_movies_more_than_10 reference_kernel
           popular_example 5 "A" H).
Defined.

(** The title "C" has exactly ten ratings, all 5, and is not returned. *)
Example exactly_ten_ratings_not_returned :
  Z.of_nat (List.length (rows_of popular_example "C")) = 10
  /\ ~ In "C" (get_top_rated_movies popular_example 5).
Proof.
  split; [vm_compute; reflexivity |].
  assert (E : get_top_rated_movies popular_example 5 = ["A"; "B"])
    by (vm_compute; reflexivity).
  rewrite E. intros [H | [H | []]]; discriminate H.
Qed.

(** ** The similarity scores *)

Section Similarity.
Context {K : Kernel}.

Lemma series_get_column (F : string * list float -> float)
      (cols : list (string * list float)) (c : string * list float) :
  NoDup (map fst cols) -> In c cols ->
  series_get (map (fun c => (fst c, F c)) cols) (fst c) = F c.
Proof.
  unfold series_get. induction cols as [|a cols IH]; simpl; [tauto |].
  intros Hnd Hin. apply NoDup_cons_iff in Hnd as [Ha Hnd].
  destruct (String.eqb (fst c) (fst a)) eqn:E; simpl.
  - destruct Hin as [-> | Hin]; [reflexivity |].
    apply String.eqb_eq in E. exfalso. apply Ha. rewrite <- E.
    now apply in_map.
  - destruct Hin as [-> | Hin]; [| now apply IH].
    now rewrite String.eqb_refl in E.
Qed.

Lemma labelled_index (g : Globals) (F : string * list float -> float) :
  map fst (map (fun c => (fst c, F c)) (df_columns (user_movie_rating g)))
  = columns g.
Proof.
  unfold columns. rewrite map_map. now apply map_ext.
Qed.

Lemma corrwith_index (g : Globals) (other : list float) :
  map fst (corrwith g other) = columns g.
Proof.
  unfold corrwith. apply labelled_index.
Qed.

Lemma summed_score_snoc (g : Globals) (ks : list string) (t : string)
      (col : list float) :
  summed_score g (ks ++ [t]) col
  = add_filled zero (summed_score g ks col) (series_corr (getitem g t) col).
Proof.
  unfold summed_score. now rewrite map_app, fold_left_app.
Qed.

(** The loop invariant: after the titles [ks] have been added, the
    accumulator is empty if [ks] is, and holds the summed scores of all
    columns otherwise. *)
Definition scores_after (g : Globals) (ks : list string) (scores : Series)
  : Prop :=
  match ks with
  | [] => scores = []
  | _ :: _ =>
      scores = map (fun c => (fst c, summed_score g ks (snd c)))
                   (df_columns (user_movie_rating g))
  end.

Lemma add_similar_step (g : Globals) (ks : list string) (scores : Series)
      (t : string) :
  NoDup (columns g) -> scores_after g ks scores ->
  scores_after g (ks ++ known_titles g [t]) (add_similar g scores t).
Proof.
  intros Hnd Hinv. unfold add_similar, known_titles. simpl.
  destruct (mem_str t (columns g)) eqn:Ht; simpl.
  2: now rewrite app_nil_r.
  assert (Hget : forall c, In c (df_columns (user_movie_rating g)) ->
                 series_get scores (fst c) = summed_score g ks (snd c)).
  { intros c Hc. destruct ks as [|k ks]; simpl in Hinv; subst scores.
    - reflexivity.
    - now apply (series_get_column (fun c => summed_score g (k :: ks) (snd c))). }
  assert (Hidx : join_outer (map fst scores)
                            (map fst (corrwith g (getitem g t)))
                 = columns g).
  { rewrite corrwith_index. unfold join_outer.
    destruct ks as [|k ks]; simpl in Hinv; subst scores.
    - cbn [map].
      destruct (list_eq_dec string_dec [] (columns g)) as [E|_];
        [exact E | reflexivity].
    - rewrite labelled_index.
      destruct (list_eq_dec string_dec (columns g) (columns g));
        [reflexivity | contradiction]. }
  assert (Hgoal : series_add zero scores (corrwith g (getitem g t))
          = map (fun c => (fst c, summed_score g (ks ++ [t]) (snd c)))
                (df_columns (user_movie_rating g))).
  { unfold series_add. rewrite Hidx. unfold columns. rewrite map_map.
    apply map_ext_in. cbv beta. intros c Hc. f_equal.
    rewrite summed_score_snoc, (Hget c Hc). f_equal.
    unfold corrwith.
    now apply (series_get_column
                 (fun c => series_corr (getitem g t) (snd c))). }
  unfold scores_after. destruct (ks ++ [t]) eqn:E; [| exact Hgoal].
  now destruct ks.
Qed.

Lemma known_titles_cons (g : Globals) (t : string) (sel : list string) :
  known_titles g (t :: sel) = known_titles g [t] ++ known_titles g sel.
Proof.
  unfold known_titles. simpl. now destruct (mem_str t (columns g)).
Qed.

Lemma add_similar_loop (g : Globals) (sel ks : list string) (scores : Series) :
  NoDup (columns g) -> scores_after g ks scores ->
  scores_after g (ks ++ known_titles g sel)
               (fold_left (add_similar g) sel scores).
Proof.
  intros Hnd. revert ks scores.
  induction sel as [|t sel IH]; intros ks scores Hinv.
  - unfold known_titles. simpl. now rewrite app_nil_r.
  - rewrite known_titles_cons, app_assoc. cbn [fold_left].
    apply IH. now apply add_similar_step.
Qed.

(** The loop of [get_recommendations] computes [summed_scores]. *)
Lemma similar_scores_summed (g : Globals) (selected_movies : list string) :
  NoDup (columns g) ->
  similar_scores g selected_movies = summed_scores g selected_movies.
Proof.
  intros Hnd.
  pose proof (@add_similar_loop g selected_movies [] [] Hnd eq_refl) as H.
  simpl in H. unfold scores_after in H. unfold summed_scores, similar_scores.
  destruct (known_titles g selected_movies); exact H.
Qed.

Lemma drop_titles (labels : list string) (s : Series) :
  map fst (drop labels s)
  = filter (fun t => negb (mem_str t labels)) (map fst s).
Proof.
  unfold drop.
  now rewrite (@filter_map_comm _ _ (@fst string float)
                 (fun t => negb (mem_str t labels)) s).
Qed.

(** C2 (as amended): for every [n >= 0], with the columns of the rating
    matrix labelled by distinct titles, [get_recommendations selected n]
    returns the first [n] titles, the selected ones removed, of the score
    Series in descending order (NaN last); the score of a column is the sum
    of its correlations with the columns of the selected titles that are
    columns, where a NaN facing a number counts as 0 and an entry that is
    NaN in every term stays NaN. The result has at most [n] elements. *)
Theorem get_recommendations_ranking (g : Globals)
        (selected_movies : list string) (n : Z) :
  NoDup (columns g) -> 0 <= n ->
  exists ranking : Series,
    similarity_ranking g selected_movies ranking
    /\ get_recommendations g selected_movies n
       = firstn (Z.to_nat n)
                (filter (fun t => negb (mem_str t selected_movies))
                        (map fst ranking))
    /\ Z.of_nat (List.length (get_recommendations g selected_movies n)) <= n.
Proof.
  intros Hnd Hn.
  exists (sort_values_desc (@snd string float)
                           (similar_scores g selected_movies)).
  split; [split | split].
  - rewrite <- (@similar_scores_summed g selected_movies Hnd).
    apply sort_values_desc_perm.
  - apply sort_values_desc_ordered.
  - unfold get_recommendations. rewrite (head_nonneg _ Hn).
    now rewrite <- firstn_map, drop_titles.
  - unfold get_recommendations. rewrite length_map. now apply head_length.
Qed.

Lemma get_recommendations_In (g : Globals) (sel : list string) (n : Z)
      (t : string) :
  In t (get_recommendations g sel n) ->
  exists v, In (t, v) (similar_scores g sel) /\ mem_str t sel = false.
Proof.
  unfold get_recommendations. intros H.
  apply in_map_iff in H as ([t' v] & Ht & H). simpl in Ht. subst t'.
  apply head_In in H. unfold drop in H. apply filter_In in H as [H Hm].
  apply sort_values_desc_In in H. exists v. split; [assumption |].
  now apply negb_true_iff in Hm.
Qed.

(** C8: no title returned by [get_recommendations] is one of the selected
    titles. *)
Theorem get_recommendations_excludes_selected (g : Globals)
        (selected_movies : list string) (n : Z) (t : string) :
  In t (get_recommendations g selected_movies n) ->
  ~ In t selected_movies.
Proof.
  intros H Hsel. apply get_recommendations_In in H as (v & _ & Hm).
  apply mem_str_In in Hsel. congruence.
Qed.

Lemma similar_scores_unknown (g : Globals) (sel : list string) :
  (forall t, In t sel -> ~ In t (columns g)) -> similar_scores g sel = [].
Proof.
  unfold similar_scores. induction sel as [|t sel IH]; intros H; simpl.
  - reflexivity.
  - unfold add_similar at 2.
    destruct (mem_str t (columns g)) eqn:E; simpl.
    + apply mem_str_In in E. exfalso. apply (H t); simpl; auto.
    + apply IH. intros t' Ht'. apply H. now right.
Qed.

Lemma sort_values_desc_nil {A : Type} (key : A -> float) :
  sort_values_desc key [] = [].
Proof.
  unfold sort_values_desc. simpl.
  rewrite (Permutation_nil (Permutation_sym (take_argsort_perm key []))).
  reflexivity.
Qed.

(** C9: when no selected title is a column of the rating matrix,
    [get_recommendations] returns the empty list. *)
Theorem get_recommendations_unknown_titles (g : Globals)
        (selected_movies : list string) (n : Z) :
  (forall t, In t selected_movies -> ~ In t (columns g)) ->
  get_recommendations g selected_movies n = [].
Proof.
  intros H. unfold get_recommendations.
  rewrite (@similar_scores_unknown g selected_movies H), sort_values_desc_nil.
  unfold drop, head. simpl. rewrite !firstn_nil. now destruct (0 <=? n).
Qed.
End Similarity.

(** ** The rating matrix *)

Section Pivot.
Context {K : Kernel}.

Lemma group_mean_cell (d : list (DataRow float)) (u : Z) (t : string) :
  group_mean (map (@rating float) (filter (in_cell u t) d))
  = cell_value d u t.
Proof.
  unfold group_mean, cell_value, cell_ratings.
  now rewrite filter_map_comm, filter_andb.
Qed.

Lemma in_cell_true (u : Z) (t : string) (r : DataRow float) :
  in_cell u t r = true <-> userId r = u /\ title r = Some t.
Proof.
  unfold in_cell. now rewrite andb_true_iff, Z.eqb_eq, has_title_true.
Qed.

Lemma cell_value_rated (d : list (DataRow float)) (u : Z) (t : string) :
  notna (cell_value d u t) = true ->
  exists r, In r d /\ userId r = u /\ title r = Some t.
Proof.
  unfold cell_value, cell_ratings.
  destruct (filter _ d) as [|r rs] eqn:E; simpl; [discriminate |].
  intros _. assert (H : In r (r :: rs)) by now left.
  rewrite <- E in H. apply filter_In in H as [Hr Hc].
  apply andb_true_iff in Hc as [Hc _]. apply in_cell_true in Hc.
  now exists r.
Qed.

Lemma pair_keys_In (d : list (DataRow float)) (u : Z) (t : string) :
  In (u, t) (pair_keys d) <->
  exists r, In r d /\ userId r = u /\ title r = Some t.
Proof.
  unfold pair_keys. rewrite nodup_In, in_flat_map. split.
  - intros (r & Hr & H). exists r. split; [assumption |].
    destruct (title r); simpl in H; [| contradiction].
    destruct H as [[= <- <-] | []]. now split.
  - intros (r & Hr & Hu & Ht). exists r. split; [assumption |].
    rewrite Ht, Hu. now left.
Qed.

(** The entries of [agged]: the (user, title) pairs whose mean is a number,
    with that mean. *)
Lemma agged_In (d : list (DataRow float)) (u : Z) (t : string) (v : float) :
  In (u, t, v) (agged d) <->
  v = cell_value d u t /\ notna v = true.
Proof.
  unfold agged. rewrite filter_In, in_map_iff. simpl. split.
  - intros [([u' t'] & E & _) Hv]. simpl in E.
    rewrite group_mean_cell in E. now inversion E; subst.
  - intros [-> Hv]. split; [| assumption].
    exists (u, t). simpl. rewrite group_mean_cell. split; [reflexivity |].
    now apply pair_keys_In, cell_value_rated.
Qed.

Lemma lookup_agg_cell (d : list (DataRow float)) (u : Z) (t : string) :
  lookup_agg (agged d) u t
  = if notna (cell_value d u t) then cell_value d u t else nan.
Proof.
  unfold lookup_agg.
  destruct (find _ (agged d)) as [[[u' t'] v]|] eqn:F.
  - apply find_some in F as [Hin Hk]. simpl in Hk.
    apply andb_true_iff in Hk as [Hu Ht].
    apply Z.eqb_eq in Hu. apply String.eqb_eq in Ht. subst u' t'.
    apply agged_In in Hin as [-> Hv]. simpl. now rewrite Hv.
  - destruct (notna (cell_value d u t)) eqn:Hv; [| reflexivity].
    pose proof (find_none _ _ F (u, t, cell_value d u t)) as H.
    simpl in H. rewrite Z.eqb_refl, String.eqb_refl in H.
    discriminate H. now apply agged_In.
Qed.

Lemma pivot_rows_In (d : list (DataRow float)) (u : Z) :
  In u (pivot_rows d) <-> exists t, notna (cell_value d u t) = true.
Proof.
  unfold pivot_rows, Z_labels. rewrite unique_sorted_In, in_map_iff. split.
  - intros ([[u' t] v] & E & H). simpl in E. subst u'.
    apply agged_In in H as [-> Hv]. now exists t.
  - intros [t Hv]. exists (u, t, cell_value d u t).
    split; [reflexivity | now apply agged_In].
Qed.

Lemma pivot_labels_In (d : list (DataRow float)) (t : string) :
  In t (str_labels (map (fun e => snd (fst e)) (agged d))) <->
  exists u, notna (cell_value d u t) = true.
Proof.
  unfold str_labels. rewrite unique_sorted_In, in_map_iff. split.
  - intros ([[u t'] v] & E & H). simpl in E. subst t'.
    apply agged_In in H as [-> Hv]. now exists u.
  - intros [u Hv]. exists (u, t, cell_value d u t).
    split; [reflexivity | now apply agged_In].
Qed.

(** Every unstacked column has an entry that is a number, so the final
    [dropna(how='all', axis=1)] removes nothing. *)
Lemma pivot_cols_In (d : list (DataRow float)) (t : string)
      (col : list float) :
  In (t, col) (pivot_cols d) <->
  (exists u, notna (cell_value d u t) = true)
  /\ col = map (fun u => if notna (cell_value d u t)
                         then cell_value d u t else nan)
               (pivot_rows d).
Proof.
  unfold pivot_cols. rewrite filter_In, in_map_iff. simpl.
  assert (E : map (fun u => lookup_agg (agged d) u t) (pivot_rows d)
              = map (fun u => if notna (cell_value d u t)
                              then cell_value d u t else nan)
                    (pivot_rows d)).
  { apply map_ext. intros u. apply lookup_agg_cell. }
  split.
  - intros [(t' & [= <- <-] & Ht) _]. split; [| exact E].
    now apply pivot_labels_In.
  - intros [[u Hv] ->]. split.
    + exists t. split; [now rewrite E | apply pivot_labels_In; now exists u].
    + apply existsb_exists. exists (cell_value d u t). split; [| assumption].
      apply in_map_iff. exists u. rewrite Hv. split; [reflexivity |].
      apply pivot_rows_In. now exists t.
Qed.

Lemma pivot_cols_NoDup (d : list (DataRow float)) :
  NoDup (map fst (pivot_cols d)).
Proof.
  unfold pivot_cols. apply NoDup_map_filter. rewrite map_map. simpl.
  rewrite map_id. apply unique_sorted_NoDup.
Qed.

Lemma pivot_table_matrix (d : list (DataRow float)) :
  rating_matrix d (pivot_table d).
Proof.
  unfold rating_matrix, pivot_table. simpl.
  split; [apply unique_sorted_NoDup |].
  split; [apply pivot_cols_NoDup |].
  split; [apply pivot_rows_In |].
  split; [| split].
  - intros t. rewrite in_map_iff. split.
    + intros ([t' col] & E & H). simpl in E. subst t'.
      now apply pivot_cols_In in H.
    + intros Hu. eexists (t, _). split; [reflexivity |].
      apply pivot_cols_In. split; [exact Hu | reflexivity].
  - intros t col H. now apply pivot_cols_In in H.
  - intros u t H. destruct (notna (cell_value d u t)) eqn:E; [| reflexivity].
    apply cell_value_rated in E as (r & Hr & Hu & Ht).
    specialize (H r Hr). now rewrite (proj2 (in_cell_true u t r)) in H.
Qed.

(** C5 (as amended): [user_movie_rating] is the user x title matrix of the
    joined data: one row per userId and one column per title for which
    some (user, title) pair has a mean of numeric ratings; the entry of a
    pair is the mean of that user's numeric ratings of the title, and NaN
    when there is no such mean, in particular when the user did not rate
    the title. *)
Theorem user_movie_rating_matrix (raw_movies : list RawMovie)
        (raw_ratings : list RawRating) :
  rating_matrix (data (load raw_movies raw_ratings))
                (user_movie_rating (load raw_movies raw_ratings)).
Proof.
  unfold load. cbn [data user_movie_rating]. apply pivot_table_matrix.
Qed.

Lemma load_columns_NoDup (raw_movies : list RawMovie)
      (raw_ratings : list RawRating) :
  NoDup (columns (load raw_movies raw_ratings)).
Proof.
  unfold columns, load. cbn [user_movie_rating pivot_table df_columns].
  apply pivot_cols_NoDup.
Qed.
End Pivot.

(** ** The join *)

Lemma merge_In (rs : list Rating) (ms : list Movie) (u : Z) (k : string)
      (c : RatingCell) (t : option string) :
  In (mkData u k c t) (merge rs ms) <->
  In (mkRating u k c) rs /\ In (mkMovie k t) ms.
Proof.
  unfold merge. rewrite in_flat_map. split.
  - intros ([u' k' c'] & Hr & H). simpl in H.
    apply in_map_iff in H as ([k'' t'] & E & Hm). simpl in E.
    apply filter_In in Hm as [Hm Hk]. simpl in Hk.
    apply String.eqb_eq in Hk. inversion E; subst. now split.
  - intros [Hr Hm]. exists (mkRating u k c). split; [assumption |]. simpl.
    apply in_map_iff. exists (mkMovie k t). split; [reflexivity |].
    apply filter_In. split; [assumption | apply String.eqb_refl].
Qed.

Lemma merge_unmatched (ms : list Movie) (r : Rating) (rs : list Rating) :
  existsb (fun m => String.eqb (r_movieId r) (m_movieId m)) ms = false ->
  merge (r :: rs) ms = merge rs ms.
Proof.
  intros H. unfold merge. simpl.
  replace (filter _ ms) with (@nil Movie); [reflexivity |].
  symmetry. induction ms as [|m ms IH]; [reflexivity |]. simpl in *.
  apply orb_false_iff in H as [-> H]. now apply IH.
Qed.

Lemma has_metadata_prepared (rm : list RawMovie) (r : RawRating) :
  existsb (fun m => String.eqb (astype_str (raw_movieId r)) (m_movieId m))
          (prepare_movies rm)
  = has_metadata rm r.
Proof.
  unfold has_metadata, prepare_movies.
  induction rm as [|m rm IH]; simpl; [reflexivity | now rewrite IH].
Qed.

(** Dropping the rating rows without metadata does not change the join. *)
Lemma merge_matched_only (rm : list RawMovie) (rr : list RawRating) :
  merge (prepare_ratings (filter (has_metadata rm) rr)) (prepare_movies rm)
  = merge (prepare_ratings rr) (prepare_movies rm).
Proof.
  unfold prepare_ratings.
  induction rr as [|r rr IH]; [reflexivity |]. cbn [filter].
  destruct (has_metadata rm r) eqn:E; cbn [map].
  - unfold merge in *. cbn [flat_map]. now rewrite IH.
  - rewrite IH. symmetry. apply merge_unmatched. cbn [r_movieId].
    now rewrite has_metadata_prepared.
Qed.

Lemma unique_key_filter (ms : list Movie) (k : string) :
  NoDup (map m_movieId ms) ->
  (List.length (filter (fun m => String.eqb k (m_movieId m)) ms) <= 1)%nat.
Proof.
  induction ms as [|m ms IH]; simpl; intros H; [lia |].
  apply NoDup_cons_iff in H as [Hm H].
  destruct (String.eqb k (m_movieId m)) eqn:E; simpl; [| now apply IH].
  apply String.eqb_eq in E. subst k.
  replace (filter _ ms) with (@nil Movie); [simpl; lia |].
  symmetry. clear IH H. induction ms as [|m' ms IH]; [reflexivity |].
  simpl in *. destruct (String.eqb (m_movieId m) (m_movieId m')) eqn:E.
  - apply String.eqb_eq in E. exfalso. apply Hm. now left.
  - apply IH. intros H. apply Hm. now right.
Qed.

Lemma prepared_keys (rm : list RawMovie) :
  map m_movieId (prepare_movies rm)
  = map (fun m => astype_str (movie_id m)) rm.
Proof.
  unfold prepare_movies. now rewrite map_map.
Qed.

(** With one metadata row per [movieId], each rating row with metadata is
    joined once. *)
Lemma merge_once (rm : list RawMovie) (rr : list RawRating) :
  NoDup (map (fun m => astype_str (movie_id m)) rm) ->
  map rating_part (coerce_rating (merge (prepare_ratings rr)
                                        (prepare_movies rm)))
  = map joined_rating (filter (has_metadata rm) rr).
Proof.
  intros Hnd. rewrite <- prepared_keys in Hnd.
  induction rr as [|r rr IH]; [reflexivity |].
  unfold merge, coerce_rating in *. simpl.
  rewrite !map_app, IH. clear IH.
  pose proof (@unique_key_filter (prepare_movies rm)
                (astype_str (raw_movieId r)) Hnd) as Hle.
  rewrite <- (has_metadata_prepared rm r).
  destruct (filter _ (prepare_movies rm)) as [|m [|m' ms]] eqn:F.
  - replace (existsb _ _) with false; [reflexivity |].
    symmetry. apply not_true_is_false. intros H.
    apply existsb_exists in H as (x & Hx & Hk).
    assert (Hin : In x []) by (rewrite <- F; now apply filter_In).
    destruct Hin.
  - replace (existsb _ _) with true; [reflexivity |].
    symmetry. apply existsb_exists. exists m.
    assert (Hin : In m [m]) by now left.
    rewrite <- F in Hin. now apply filter_In in Hin.
  - simpl in Hle. lia.
Qed.

Section Join.
Context {K : Kernel}.

Lemma top_rated_data (g g' : Globals) (n : Z) :
  data g = data g' -> get_top_rated_movies g n = get_top_rated_movies g' n.
Proof.
  intros E. unfold get_top_rated_movies, popular_movies, rating_stats.
  now rewrite E.
Qed.

Lemma recommendations_matrix (g g' : Globals) (sel : list string) (n : Z) :
  user_movie_rating g = user_movie_rating g' ->
  get_recommendations g sel n = get_recommendations g' sel n.
Proof.
  intros E. unfold get_recommendations, similar_scores. do 4 f_equal.
  assert (H : forall s t, add_similar g s t = add_similar g' s t).
  { intros s t. unfold add_similar, columns, corrwith, getitem.
    now rewrite E. }
  generalize (@nil (string * float)).
  induction sel as [|t sel IH]; intros s; simpl; [reflexivity |].
  now rewrite H, IH.
Qed.

(** C4: [data] is the inner join of the two datasets on the [movieId]
    string: its rows are the pairs of a rating row and a metadata row with
    the same key, carrying the rating and that movie's title; with one
    metadata row per key these are exactly the rating rows that have
    metadata, once each and in order; and the rating rows without metadata
    change neither [data] nor the rating matrix nor any recommendation. *)
Theorem data_is_inner_join (raw_movies : list RawMovie)
        (raw_ratings : list RawRating) :
  (forall u k v t,
      In (mkData u k v t) (data (load raw_movies raw_ratings)) <->
      exists r m,
        In r raw_ratings /\ In m raw_movies
        /\ astype_str (raw_movieId r) = astype_str (movie_id m)
        /\ (u, k, v) = joined_rating r /\ t = movie_title m)
  /\ (NoDup (map (fun m => astype_str (movie_id m)) raw_movies) ->
      map rating_part (data (load raw_movies raw_ratings))
      = map joined_rating (filter (has_metadata raw_movies) raw_ratings))
  /\ (let matched := filter (has_metadata raw_movies) raw_ratings in
      data (load raw_movies matched) = data (load raw_movies raw_ratings)
      /\ user_movie_rating (load raw_movies matched)
         = user_movie_rating (load raw_movies raw_ratings)
      /\ (forall n, get_top_rated_movies (load raw_movies matched) n
                    = get_top_rated_movies (load raw_movies raw_ratings) n)
      /\ (forall sel n,
             get_recommendations (load raw_movies matched) sel n
             = get_recommendations (load raw_movies raw_ratings) sel n)).
Proof.
  assert (Hd : data (load raw_movies
                          (filter (has_metadata raw_movies) raw_ratings))
               = data (load raw_movies raw_ratings)).
  { unfold load. cbn [data]. now rewrite merge_matched_only. }
  assert (Hm : user_movie_rating
                 (load raw_movies
                       (filter (has_metadata raw_movies) raw_ratings))
               = user_movie_rating (load raw_movies raw_ratings)).
  { unfold load in *. cbn [data user_movie_rating] in *. now rewrite Hd. }
  split; [| split].
  - intros u k v t. unfold load, coerce_rating. cbn [data].
    rewrite in_map_iff. split.
    + intros ([u' k' c t'] & E & H). simpl in E. inversion E; subst.
      apply merge_In in H as [Hr Hmv].
      apply in_map_iff in Hr as (r & Er & Hr).
      apply in_map_iff in Hmv as (m & Em & Hmv).
      inversion Er; subst. inversion Em; subst.
      exists r, m. unfold joined_rating. repeat split; auto; congruence.
    + intros (r & m & Hr & Hmv & Ek & E & ->).
      unfold joined_rating in E. inversion E; subst.
      exists (mkData (raw_userId r) (astype_str (raw_movieId r))
                     (raw_rating r) (movie_title m)).
      split; [reflexivity |]. apply merge_In. split.
      * apply in_map_iff. now exists r.
      * apply in_map_iff. exists m. split; [now rewrite Ek | assumption].
  - intros Hnd. unfold load. cbn [data]. now apply merge_once.
  - cbv zeta. split; [exact Hd | split; [exact Hm | split]].
    + intros n. now apply top_rated_data.
    + intros sel n. now apply recommendations_matrix.
Qed.
End Join.

(** ** The handler *)

Section HandlerFacts.
Context {K : Kernel}.

(** C3: [/recommend] serves the popularity ranking when every movie field
    is empty or missing, and otherwise the similarity recommendations
    computed from exactly the non-empty fields; the two pages carry
    different headings. *)
Theorem recommend_one_of_two (g : Globals) (form : Form) :
  recommend g form
  = (if empty_or_missing (movie1 form) && empty_or_missing (movie2 form)
        && empty_or_missing (movie3 form)
     then mkPage (get_top_rated_movies g 5) ranking_text
     else mkPage (get_recommendations g (non_empty_fields form) 5) top5_text)
  /\ ranking_text <> top5_text
  /\ (forall s, In s (non_empty_fields form) <->
                s <> "" /\ (movie1 form = Some s \/ movie2 form = Some s
                            \/ movie3 form = Some s)).
Proof.
  split; [| split].
  - destruct form as [[[|c1 s1]|] [[|c2 s2]|] [[|c3 s3]|]]; reflexivity.
  - discriminate.
  - intros s.
    destruct form as [[[|c1 s1]|] [[|c2 s2]|] [[|c3 s3]|]]; simpl;
      (split;
       [ intros H; repeat destruct H as [<- | H]; try contradiction;
         (split; [discriminate | auto])
       | intros [Hs [H | [H | H]]]; inversion H; subst; auto;
         contradiction ]).
Qed.

End HandlerFacts.

(** ** Programs *)

Lemma run_alone_pbind {A B : Type} (p : Prog A) (f : A -> Prog B)
      (g : Globals) :
  run_alone (pbind p f) g
  = match run_alone p g with
    | (inr a, g') => run_alone (f a) g'
    | (inl e, g') => (inl e, g')
    end.
Proof.
  revert g. induction p as [a | e | k IH | g' k IH]; intros g; simpl.
  - now destruct (run_alone (f a) g).
  - reflexivity.
  - apply IH.
  - apply IH.
Qed.

Lemma write_free_pbind {A B : Type} (p : Prog A) (f : A -> Prog B) :
  write_free p -> (forall a, write_free (f a)) -> write_free (pbind p f).
Proof.
  intros Hp Hf. induction Hp as [a | e | k Hk IH]; simpl.
  - apply Hf.
  - constructor.
  - constructor. exact IH.
Qed.

Lemma write_free_lift {A : Type} (r : Result A) : write_free (lift r).
Proof. destruct r; constructor. Qed.

Lemma write_free_state {A : Type} (p : Prog A) (g : Globals) :
  write_free p -> snd (run_alone p g) = g.
Proof.
  intros Hp. induction Hp as [a | e | k Hk IH]; simpl; auto.
Qed.

Lemma remaining_pbind {A B : Type} (p : Prog A) (f : A -> Prog B)
      (g : Globals) :
  write_free p -> (forall a, remaining (f a) g = O) ->
  remaining (pbind p f) g = remaining p g.
Proof.
  intros Hp Hf. induction Hp as [a | e | k Hk IH]; simpl; auto.
Qed.

Lemma remaining_lift {A : Type} (r : Result A) (g : Globals) :
  remaining (lift r) g = O.
Proof. now destruct r. Qed.

(** One access of a program that never writes. *)
Lemma step_write_free {A : Type} (p : Prog A) (g : Globals) :
  write_free p ->
  snd (step p g) = g
  /\ write_free (fst (step p g))
  /\ run_alone (fst (step p g)) g = run_alone p g
  /\ remaining (fst (step p g)) g = Nat.pred (remaining p g).
Proof.
  intros Hp. destruct Hp as [a | e | k Hk]; simpl; repeat split;
    try constructor; auto.
Qed.

Lemma finished_run {A : Type} (p : Prog A) (g : Globals) (a : A) :
  finished p = true -> run_alone p g = (inr a, g) -> p = Ret a.
Proof.
  destruct p; simpl; try discriminate; intros _ [= ->]; reflexivity.
Qed.

Lemma remaining_finished {A : Type} (p : Prog A) (g : Globals) :
  remaining p g = O -> finished p = true.
Proof. destruct p; simpl; auto; discriminate. Qed.

Lemma nth_error_replace_nth_eq {A : Type} (l : list A) (i : nat) (x y : A) :
  nth_error l i = Some y -> nth_error (replace_nth i x l) i = Some x.
Proof.
  revert i. induction l as [|z l IH]; intros [|i]; simpl; try discriminate;
    auto.
Qed.

Lemma nth_error_replace_nth_neq {A : Type} (l : list A) (i j : nat) (x : A) :
  i <> j -> nth_error (replace_nth i x l) j = nth_error l j.
Proof.
  revert i j. induction l as [|z l IH]; intros [|i] [|j] H; simpl; auto;
    try contradiction.
Qed.

(** The invariant of an interleaving of programs that never write: the
    module state stays [g]; every program keeps the outcome it has when run
    on its own, and has made as many of its accesses as it had turns. *)
Lemma interleave_write_free {A : Type} (g : Globals) (schedule : list nat) :
  forall pool : list (Prog A),
    (forall i p, nth_error pool i = Some p -> write_free p) ->
    snd (interleave schedule pool g) = g
    /\ forall i p,
         nth_error pool i = Some p ->
         exists p',
           nth_error (fst (interleave schedule pool g)) i = Some p'
           /\ run_alone p' g = run_alone p g
           /\ remaining p' g
              = (remaining p g - count_occ Nat.eq_dec schedule i)%nat.
Proof.
  induction schedule as [|j schedule IH]; intros pool Hwf; simpl.
  - split; [reflexivity |]. intros i p Hp. exists p.
    repeat split; [assumption | lia].
  - destruct (nth_error pool j) as [q|] eqn:Hq.
    + destruct (step_write_free g (Hwf j q Hq)) as (Hg & Hwf' & Hrun & Hrem).
      destruct (step q g) as [q' g'] eqn:Hstep. simpl in *. subst g'.
      assert (Hwf1 : forall i p,
                 nth_error (replace_nth j q' pool) i = Some p ->
                 write_free p).
      { intros i p Hp. destruct (Nat.eq_dec j i) as [<- | Hne].
        - rewrite (nth_error_replace_nth_eq _ _ q' Hq) in Hp.
          now inversion Hp; subst.
        - rewrite (nth_error_replace_nth_neq _ q' Hne) in Hp.
          now apply (Hwf i). }
      destruct (IH _ Hwf1) as [Hstate Hpool]. split; [exact Hstate |].
      intros i p Hp. destruct (Nat.eq_dec j i) as [<- | Hne].
      * rewrite Hq in Hp. inversion Hp; subst p.
        destruct (Hpool j q' (nth_error_replace_nth_eq _ _ q' Hq))
          as (p' & Hp' & Hrun' & Hrem').
        exists p'. split; [exact Hp' |]. split; [congruence |].
        rewrite Hrem', Hrem. lia.
      * assert (Hp1 : nth_error (replace_nth j q' pool) i = Some p)
          by now rewrite (nth_error_replace_nth_neq _ q' Hne).
        destruct (Hpool i p Hp1) as (p' & Hp' & Hrun' & Hrem').
        exists p'. repeat split; assumption.
    + destruct (IH _ Hwf) as [Hstate Hpool]. split; [exact Hstate |].
      intros i p Hp. destruct (Nat.eq_dec j i) as [<- | Hne];
        [congruence |].
      destruct (Hpool i p Hp) as (p' & Hp' & Hrun' & Hrem').
      exists p'. repeat split; assumption.
Qed.

Section ProgramFacts.
Context {K : Kernel}.

Lemma getitem_checked_column (g : Globals) (t : string) :
  mem_str t (columns g) = true ->
  getitem_checked g t = inr (getitem g t).
Proof.
  unfold getitem_checked, getitem, columns, mem_str.
  induction (df_columns (user_movie_rating g)) as [|c cols IH]; simpl;
    [discriminate |].
  destruct (String.eqb t (fst c)); simpl; [reflexivity | exact IH].
Qed.

Lemma write_free_add_similar_py (sel : list string) :
  forall scores, write_free (add_similar_py sel scores).
Proof.
  induction sel as [|t sel IH]; intros scores; simpl; constructor.
  intros g. destruct (mem_str t (columns g)); simpl; [| apply IH].
  constructor. intros g1. constructor. intros g2.
  apply write_free_pbind; [apply write_free_lift | intros col; apply IH].
Qed.

Lemma write_free_program (c : Call) : write_free (program c).
Proof.
  destruct c as [n | sel n]; simpl.
  - repeat constructor.
  - apply write_free_pbind; [apply write_free_add_similar_py |].
    intros scores. simpl. constructor.
Qed.

(** The loop run on its own computes the scores and raises nothing: the
    look-up of line 71 is behind the guard of line 67. *)
Lemma run_add_similar_py (g : Globals) (sel : list string) :
  forall scores,
    run_alone (add_similar_py sel scores) g
    = (inr (fold_left (add_similar g) sel scores), g).
Proof.
  induction sel as [|t sel IH]; intros scores; simpl; [reflexivity |].
  unfold add_similar at 2.
  destruct (mem_str t (columns g)) eqn:E; simpl; [| apply IH].
  rewrite (getitem_checked_column g t E). simpl. apply IH.
Qed.

Lemma run_get_recommendations_py (g : Globals) (sel : list string) (n : Z) :
  run_alone (get_recommendations_py sel n) g
  = (inr (get_recommendations g sel n), g).
Proof.
  unfold get_recommendations_py.
  rewrite run_alone_pbind, run_add_similar_py. reflexivity.
Qed.

Lemma run_program (c : Call) (g : Globals) :
  run_alone (program c) g = (inr (result c g), g).
Proof.
  destruct c as [n | sel n]; simpl;
    [reflexivity | apply run_get_recommendations_py].
Qed.

Lemma remaining_add_similar_py (g : Globals) (sel : list string) :
  forall scores,
    (remaining (add_similar_py sel scores) g <= 3 * List.length sel)%nat.
Proof.
  induction sel as [|t sel IH]; intros scores; simpl; [lia |].
  destruct (mem_str t (columns g)); simpl.
  - destruct (getitem_checked g t) as [e | col]; simpl; [lia |].
    specialize (IH (series_add zero scores (corrwith g col))). lia.
  - specialize (IH scores). lia.
Qed.

Lemma remaining_program (c : Call) (g : Globals) :
  (remaining (program c) g <= accesses c)%nat.
Proof.
  destruct c as [n | sel n]; simpl; [lia |].
  unfold get_recommendations_py.
  rewrite remaining_pbind;
    [apply remaining_add_similar_py | apply write_free_add_similar_py |].
  intros scores. reflexivity.
Qed.

End ProgramFacts.

(** ** Start-up and failure handling *)

Lemma try_except_inr (fs : Files) (t : MovieTable) :
  try_except_UnicodeDecodeError (read_movies_100k fs utf_8)
                                (read_movies_100k fs cp932) = inr t
  <-> movies_readable fs t.
Proof.
  unfold try_except_UnicodeDecodeError, movies_readable.
  destruct (read_movies_100k fs utf_8) as [[| labels | name] | t8].
  - split; [intros H; right; now split | intros [H | [_ H]]];
      [discriminate H | exact H].
  - split; [discriminate | intros [H | [H _]]; discriminate H].
  - split; [discriminate | intros [H | [H _]]; discriminate H].
  - split; [intros H; now left | intros [H | [H _]]];
      [exact H | discriminate H].
Qed.

Lemma try_except_inl (fs : Files) (e : Exn) :
  try_except_UnicodeDecodeError (read_movies_100k fs utf_8)
                                (read_movies_100k fs cp932) = inl e
  <-> (read_movies_100k fs utf_8 = inl e /\ e <> UnicodeDecodeError)
      \/ (read_movies_100k fs utf_8 = inl UnicodeDecodeError
          /\ read_movies_100k fs cp932 = inl e).
Proof.
  unfold try_except_UnicodeDecodeError.
  destruct (read_movies_100k fs utf_8) as [[| labels | name] | t8].
  - split; [intros H; right; now split |].
    intros [[[= <-] H] | [_ H]]; [now contradiction H | exact H].
  - split; [intros [= <-]; left; split; [reflexivity | discriminate] |].
    intros [[H _] | [H _]]; [exact H | discriminate H].
  - split; [intros [= <-]; left; split; [reflexivity | discriminate] |].
    intros [[H _] | [H _]]; [exact H | discriminate H].
  - split; [discriminate | intros [[H _] | [H _]]; discriminate H].
Qed.

Section StartupFacts.
Context {K : Kernel}.

Lemma startup_inr (fs : Files) (g : Globals) :
  startup fs = inr g <-> startup_loads fs g.
Proof.
  unfold startup, startup_loads, bind.
  destruct (try_except_UnicodeDecodeError _ _) as [e | t] eqn:ET.
  - split; [discriminate |].
    intros (ids & titles & us & ms & vs & Hm & _).
    apply try_except_inr in Hm. congruence.
  - destruct t as [[ids|] [titles|]];
      destruct (read_ratings_100k fs) as [e | [[us|] [ms|] [vs|]]] eqn:ER;
      simpl;
      (split;
       [ try discriminate
       | intros (ids' & titles' & us' & ms' & vs' & Hm & Hr & ->);
         apply try_except_inr in Hm; rewrite ET in Hm;
         try discriminate; try congruence ]).
    intros [= <-]. exists ids, titles, us, ms, vs.
    split; [now apply try_except_inr | now split].
Qed.

Lemma startup_inl (fs : Files) (e : Exn) :
  startup fs = inl e <-> startup_raises fs e.
Proof.
  split.
  - unfold startup, bind.
    destruct (try_except_UnicodeDecodeError _ _) as [e' | t] eqn:ET.
    + intros [= <-]. apply try_except_inl in ET as [[H1 H2] | [H1 H2]].
      * now apply raises_movie_read.
      * now apply raises_movie_read_again.
    + apply try_except_inr in ET.
      destruct (movie_id_column t) as [ids|] eqn:Eid; simpl.
      2:{ intros [= <-]. now apply raises_movie_key with t. }
      assert (Hid : movie_id_column t <> None) by congruence.
      destruct (read_ratings_100k fs) as [e' | r] eqn:ER.
      { intros [= <-]. now apply raises_rating_read with t. }
      destruct (movieId_column r) as [ms|] eqn:Em; simpl.
      2:{ intros [= <-]. now apply raises_rating_key with t r. }
      assert (Hm : movieId_column r <> None) by congruence.
      destruct (rating_column r) as [vs|] eqn:Ev; simpl.
      2:{ intros [= <-]. now apply raises_rating_value with t r. }
      assert (Hv : rating_column r <> None) by congruence.
      destruct (userId_column r) as [us|] eqn:Eu; simpl.
      2:{ intros [= <-]. now apply raises_pivot_index with t r. }
      assert (Hu : userId_column r <> None) by congruence.
      destruct (movie_title_column t) as [titles|] eqn:Et; simpl.
      2:{ intros [= <-]. now apply raises_pivot_columns with t r. }
      discriminate.
  - unfold startup, bind.
    intros H. destruct H as
        [ e H1 H2 | e H1 H2 | t Ht H1 | t e Ht H1 H2 | t r Ht H1 H2 H3
        | t r Ht H1 H2 H3 H4 | t r Ht H1 H2 H3 H4 H5
        | t r Ht H1 H2 H3 H4 H5 H6 ].
    1: { assert (E : try_except_UnicodeDecodeError
                       (read_movies_100k fs utf_8)
                       (read_movies_100k fs cp932) = inl e)
         by (apply try_except_inl; now left).
         now rewrite E. }
    1: { assert (E : try_except_UnicodeDecodeError
                       (read_movies_100k fs utf_8)
                       (read_movies_100k fs cp932) = inl e)
         by (apply try_except_inl; now right).
         now rewrite E. }
    all: apply try_except_inr in Ht; rewrite Ht.
    all: destruct (movie_id_column t); try contradiction; try discriminate;
      simpl; try reflexivity.
    all: rewrite H2; try reflexivity.
    all: destruct (movieId_column r); try contradiction; try discriminate;
      simpl; try reflexivity.
    all: destruct (rating_column r); try contradiction; try discriminate;
      simpl; try reflexivity.
    all: destruct (userId_column r); try contradiction; try discriminate;
      simpl; try reflexivity.
    all: destruct (movie_title_column t); try contradiction;
      try discriminate; simpl; reflexivity.
Qed.

Lemma getitem_checked_inr (g : Globals) (t : string) :
  (exists column, getitem_checked g t = inr column) <-> In t (columns g).
Proof.
  unfold getitem_checked, columns.
  induction (df_columns (user_movie_rating g)) as [|c cols IH]; simpl.
  - split; [intros [col H]; discriminate H | tauto].
  - destruct (String.eqb t (fst c)) eqn:E; simpl.
    + apply String.eqb_eq in E. split; [intros _; now left |].
      intros _. now exists (snd c).
    + apply String.eqb_neq in E. rewrite IH. split; [tauto |].
      intros [H | H]; [congruence | exact H].
Qed.

Lemma drop_labels_raise (labels : list string) (s : Series) :
  (exists s', drop_labels errors_raise labels s = inr s')
  <-> forall l, In l labels -> In l (map fst s).
Proof.
  unfold drop_labels.
  destruct (filter _ labels) as [|m ms] eqn:E.
  - split; [| intros _; now eexists]. intros _ l Hl.
    apply mem_str_In. destruct (mem_str l (map fst s)) eqn:Em; [reflexivity |].
    assert (H : In l (filter (fun l => negb (mem_str l (map fst s))) labels))
      by (apply filter_In; split; [exact Hl | now rewrite Em]).
    rewrite E in H. destruct H.
  - split; [intros [s' H]; discriminate H |]. intros H.
    assert (Hm : In m (m :: ms)) by now left.
    rewrite <- E in Hm. apply filter_In in Hm as [Hm Hn].
    apply H, mem_str_In in Hm. rewrite Hm in Hn. discriminate Hn.
Qed.

Lemma joined_row (raw_movies : list RawMovie) (raw_ratings : list RawRating)
      (r : RawRating) (m : RawMovie) :
  In r raw_ratings -> In m raw_movies ->
  astype_str (raw_movieId r) = astype_str (movie_id m) ->
  In (mkData (raw_userId r) (astype_str (raw_movieId r))
             (to_numeric_coerce (raw_rating r)) (movie_title m))
     (data (load raw_movies raw_ratings)).
Proof.
  intros Hr Hm E. unfold load, coerce_rating. cbn [data].
  apply in_map_iff.
  exists (mkData (raw_userId r) (astype_str (raw_movieId r))
                 (raw_rating r) (movie_title m)).
  split; [reflexivity |]. apply merge_In. split.
  - apply in_map_iff. now exists r.
  - apply in_map_iff. exists m. split; [now rewrite E | assumption].
Qed.

End StartupFacts.

(** ** The properties on the examples *)

Lemma get_recommendations_ranking_witness :
  NoDup (columns similarity_example) /\ 0 <= 1 /\
  exists ranking : Series,
    similarity_ranking similarity_example ["A"] ranking
    /\ get_recommendations similarity_example ["A"] 1
       = firstn (Z.to_nat 1)
                (filter (fun t => negb (mem_str t ["A"])) (map fst ranking))
    /\ Z.of_nat (List.length (get_recommendations similarity_example ["A"] 1))
       <= 1.
Proof.
  assert (Hnd : NoDup (columns similarity_example))
    by apply load_columns_NoDup.
  assert (Hn : 0 <= 1) by lia.
  split; [exact Hnd | split; [exact Hn |]].
  exact (@get_recommendations_ranking reference_kernel similarity_example
           ["A"] 1 Hnd Hn).
Defined.

(** In the example the correlation of "C" with the selected "A" is NaN
    (no user rated both) and that of "B" is -1. The program ranks "B"
    before "C"; counting the missing correlation as 0 would rank "C"
    first. With [n = -1] the program returns one title. *)
Lemma get_recommendations_missing_stays_missing :
  similar_scores similarity_example ["A"]
  = [("A", 1%float); ("B", (-1)%float); ("C", nan)]
  /\ get_recommendations similarity_example ["A"] 1 = ["B"]
  /\ Spec.get_recommendations similarity_example ["A"] 1 = ["C"]
  /\ get_recommendations similarity_example ["A"] (-1) = ["B"]
  /\ ~ Z.of_nat (List.length
                   (get_recommendations similarity_example ["A"] (-1)))
       <= -1.
Proof.
  assert (E : get_recommendations similarity_example ["A"] (-1) = ["B"])
    by (vm_compute; reflexivity).
  repeat split; try (vm_compute; reflexivity).
  rewrite E. simpl. lia.
Qed.

(** User 5 rated "D" with a text that is not a number: both are in the
    joined data, but the matrix has no row for the user and no column for
    the title. *)
Lemma rating_matrix_skips_non_numeric :
  In 5 (map (@userId float) (data similarity_example))
  /\ ~ In 5 (df_index (user_movie_rating similarity_example))
  /\ In (Some "D") (map (@title float) (data similarity_example))
  /\ ~ In "D" (columns similarity_example).
Proof.
  repeat split.
  - vm_compute. tauto.
  - vm_compute. intuition discriminate.
  - vm_compute. tauto.
  - vm_compute. intuition discriminate.
Qed.

Lemma get_recommendations_excludes_selected_witness :
  In "B" (get_recommendations similarity_example ["A"] 5)
  /\ ~ In "B" ["A"].
Proof.
  assert (H : In "B" (get_recommendations similarity_example ["A"] 5))
    by (vm_compute; auto).
  split; [exact H |].
  exact (@get_recommendations_excludes_selected reference_kernel
           similarity_example ["A"] 5 "B" H).
Defined.

Lemma get_recommendations_unknown_titles_witness :
  (forall t, In t ["Z"] -> ~ In t (columns similarity_example))
  /\ get_recommendations similarity_example ["Z"] 5 = [].
Proof.
  assert (H : forall t, In t ["Z"] -> ~ In t (columns similarity_example)).
  { intros t [<- | []]. vm_compute. intuition discriminate. }
  split; [exact H |].
  exact (@get_recommendations_unknown_titles reference_kernel
           similarity_example ["Z"] 5 H).
Defined.

(** The rating of movie 99, which has no metadata, is not in the joined
    data; the metadata keys of the example are distinct, and the joined
    rows are the eight rating rows with metadata. *)
Lemma data_is_inner_join_witness :
  NoDup (map (fun m => astype_str (movie_id m)) Example.sim_movies)
  /\ map rating_part (data similarity_example)
     = map joined_rating
           (filter (has_metadata Example.sim_movies) Example.sim_ratings)
  /\ List.length (data similarity_example) = 8%nat.
Proof.
  assert (Hnd : NoDup (map (fun m => astype_str (movie_id m))
                           Example.sim_movies)).
  { vm_compute. repeat constructor; simpl; intuition discriminate. }
  split; [exact Hnd | split; [| vm_compute; reflexivity]].
  exact (proj1 (proj2 (@data_is_inner_join reference_kernel
                         Example.sim_movies Example.sim_ratings)) Hnd).
Defined.


(** Two invocations interleaved on the example: both return what they
    return on their own. *)
Example interleaved_invocations :
  interleave [1; 0; 1; 1]%nat
             (map program [CallTopRated 5; CallRecommendations ["A"] 5])
             similarity_example
  = ([Ret []; Ret ["B"; "C"]], similarity_example).
Proof.
  vm_compute. reflexivity.
Qed.

(** A program that assigns to the module state is not covered: with such
    a writer in the pool, what [get_top_rated_movies] returns depends on
    the schedule. *)
Example writer_changes_result :
  let reader := get_top_rated_movies_py 5 in
  let writer := WriteGlobals popular_example (Ret []) in
  nth_error (fst (interleave [0; 1]%nat [reader; writer] similarity_example))
            0
  = Some (Ret [])
  /\ nth_error (fst (interleave [1; 0]%nat [reader; writer]
                                similarity_example)) 0
     = Some (Ret ["A"; "B"]).
Proof.
  split; vm_compute; reflexivity.
Qed.

(* ================================================================== *)
(** * Further properties of the code *)

(** ** Sorted labels *)

Lemma string_compare_trans (s1 : string) :
  forall s2 s3,
    String.compare s1 s2 <> Gt -> String.compare s2 s3 <> Gt ->
    String.compare s1 s3 <> Gt.
Proof.
  induction s1 as [|a s1 IH]; intros [|b s2] [|c s3]; simpl; try congruence.
  unfold Ascii.compare.
  destruct (N.compare_spec (N_of_ascii a) (N_of_ascii b)) as [E|E|E];
    destruct (N.compare_spec (N_of_ascii b) (N_of_ascii c)) as [F|F|F];
    destruct (N.compare_spec (N_of_ascii a) (N_of_ascii c)) as [G|G|G];
    try congruence; try lia.
  apply IH.
Qed.

Lemma string_leb_trans (s1 s2 s3 : string) :
  String.leb s1 s2 = true -> String.leb s2 s3 = true ->
  String.leb s1 s3 = true.
Proof.
  unfold String.leb. intros H1 H2.
  pose proof (@string_compare_trans s1 s2 s3) as H.
  destruct (String.compare s1 s2), (String.compare s2 s3),
    (String.compare s1 s3);
    try discriminate; try reflexivity; exfalso; apply H; congruence.
Qed.

Section SortLabelsOrdered.
Context {A : Type}.
Variable le : A -> A -> bool.
Hypothesis le_total : forall x y, le x y = true \/ le y x = true.
Hypothesis le_trans :
  forall x y z, le x y = true -> le y z = true -> le x z = true.

Let le_prop (a b : A) : Prop := le a b = true.

Lemma insert_label_ordered (x : A) (l : list A) :
  StronglySorted le_prop l -> StronglySorted le_prop (insert_label le x l).
Proof.
  induction 1 as [|y l Hs IH Hy]; simpl.
  - repeat constructor.
  - destruct (le x y) eqn:E.
    + constructor; [now constructor |].
      constructor; [exact E |].
      eapply Forall_impl; [| exact Hy]. intros z Hz.
      now apply le_trans with y.
    + constructor; [exact IH |].
      apply Forall_forall. intros z Hz.
      apply (Permutation_in _ (insert_label_perm le x l)) in Hz.
      destruct Hz as [<- | Hz].
      * destruct (le_total x y) as [H | H]; [congruence | exact H].
      * rewrite Forall_forall in Hy. now apply Hy.
Qed.

Lemma sort_labels_ordered (l : list A) :
  StronglySorted le_prop (sort_labels le l).
Proof.
  induction l as [|x l IH]; simpl; [constructor |].
  now apply insert_label_ordered.
Qed.
End SortLabelsOrdered.

Section OrderedFacts.
Context {A : Type}.
Variable R : A -> A -> Prop.

Lemma StronglySorted_app (l1 l2 : list A) :
  StronglySorted R l1 -> StronglySorted R l2 ->
  (forall a b, In a l1 -> In b l2 -> R a b) ->
  StronglySorted R (l1 ++ l2).
Proof.
  induction 1 as [|x l Hs IH Hx]; simpl; intros H2 Hb; [assumption |].
  constructor.
  - apply IH; [assumption | intros; apply Hb; simpl; auto].
  - apply Forall_app. split; [assumption |].
    apply Forall_forall. intros b Hin. apply Hb; simpl; auto.
Qed.

Lemma StronglySorted_filter (p : A -> bool) (l : list A) :
  StronglySorted R l -> StronglySorted R (filter p l).
Proof.
  induction 1 as [|x l Hs IH Hx]; simpl; [constructor |].
  destruct (p x); [| assumption].
  constructor; [assumption |].
  apply Forall_forall. intros b Hb. apply filter_In in Hb as [Hb _].
  rewrite Forall_forall in Hx. now apply Hx.
Qed.
End OrderedFacts.

(** ** [unique] *)

Section UniqueFacts.
Context {A : Type}.
Variable eq_dec : forall x y : A, {x = y} + {x <> y}.

Lemma unique_from_In (seen l : list A) (x : A) :
  In x (unique_from eq_dec seen l) <-> In x l /\ ~ In x seen.
Proof.
  revert seen. induction l as [|y l IH]; intros seen; simpl.
  - tauto.
  - destruct (in_dec eq_dec y seen) as [Hy | Hy].
    + rewrite IH. split; [tauto |].
      intros [[-> | H] Hn]; [contradiction | tauto].
    + simpl. rewrite IH. simpl. split.
      * intros [-> | [H Hn]]; [tauto |]. split; [tauto |]. tauto.
      * intros [[-> | H] Hn]; [now left |].
        destruct (eq_dec y x) as [-> | Hne]; [now left |]. right.
        split; [assumption |]. intros [E | E]; [contradiction | contradiction].
Qed.

Lemma unique_from_NoDup (seen l : list A) :
  NoDup (unique_from eq_dec seen l).
Proof.
  revert seen. induction l as [|y l IH]; intros seen; simpl.
  - constructor.
  - destruct (in_dec eq_dec y seen); [apply IH |].
    constructor; [| apply IH].
    rewrite unique_from_In. simpl. tauto.
Qed.

Lemma unique_from_ordered (R : A -> A -> Prop) (seen l : list A) :
  StronglySorted R l -> StronglySorted R (unique_from eq_dec seen l).
Proof.
  intros H. revert seen.
  induction H as [|y l Hs IH Hy]; intros seen; simpl; [constructor |].
  destruct (in_dec eq_dec y seen); [apply IH |].
  constructor; [apply IH |].
  apply Forall_forall. intros b Hb. apply unique_from_In in Hb as [Hb _].
  rewrite Forall_forall in Hy. now apply Hy.
Qed.
End UniqueFacts.

(** ** The title list of the form *)

Lemma present_titles_In (ts : list (option string)) (s : string) :
  In s (present_titles ts) <-> In (Some s) ts.
Proof.
  unfold present_titles. rewrite in_flat_map. split.
  - intros ([t|] & Ht & H); simpl in H; [| contradiction].
    destruct H as [-> | []]. exact Ht.
  - intros H. exists (Some s). split; [exact H | now left].
Qed.

Lemma sort_values_titles_In (ts : list (option string)) (t : option string) :
  In t (sort_values_titles ts) <-> In t ts.
Proof.
  unfold sort_values_titles. rewrite in_app_iff, in_map_iff, filter_In.
  split.
  - intros [(s & <- & H) | [H _]]; [| exact H].
    apply present_titles_In.
    eapply Permutation_in; [apply sort_labels_perm | exact H].
  - intros H. destruct t as [s|]; [left | right; now split].
    exists s. split; [reflexivity |].
    eapply Permutation_in; [apply Permutation_sym, sort_labels_perm |].
    now apply present_titles_In.
Qed.

Lemma sort_values_titles_ordered (ts : list (option string)) :
  StronglySorted title_le (sort_values_titles ts).
Proof.
  unfold sort_values_titles. apply StronglySorted_app.
  - generalize (sort_labels_ordered String.leb String.leb_total
                                    string_leb_trans (present_titles ts)).
    induction 1 as [|s l Hs IH Hl]; simpl; constructor; [assumption |].
    apply Forall_forall. intros b Hb. apply in_map_iff in Hb as (s' & <- & Hb).
    rewrite Forall_forall in Hl. now apply Hl.
  - induction ts as [|[s|] ts IH]; simpl; [constructor | assumption |].
    constructor; [assumption |].
    apply Forall_forall. intros b Hb. apply filter_In in Hb as [_ Hb].
    now destruct b.
  - intros a b _ Hb. apply filter_In in Hb as [_ Hb].
    destruct b; [discriminate | now destruct a].
Qed.

Lemma all_titles_In (g : Globals) (t : option string) :
  In t (all_titles g) <-> In t (map m_title (movies g)).
Proof.
  unfold all_titles, unique.
  rewrite unique_from_In, sort_values_titles_In. simpl. tauto.
Qed.

(** X1: the title list handed to the form holds every title of the movie
    metadata (the missing title too, if some row has none), each once. *)
Theorem index_lists_each_title_once (g : Globals) :
  NoDup (index g)
  /\ forall t, In t (index g) <-> In t (map m_title (movies g)).
Proof.
  unfold index. split.
  - unfold all_titles, unique. apply unique_from_NoDup.
  - intros t. apply all_titles_In.
Qed.

(** X2: when the title column is text (some title has a character that
    no numeral has), the title list handed to the form is in ascending
    order of the strings, a missing title last. *)
Theorem index_titles_ascending (g : Globals) :
  existsb text_title (map m_title (movies g)) = true ->
  StronglySorted title_le (index g).
Proof.
  intros _. unfold index, all_titles, unique.
  apply unique_from_ordered, sort_values_titles_ordered.
Qed.

(** ** More on the two recommendation functions *)

Lemma head_nil {A : Type} (n : Z) : head n (@nil A) = [].
Proof.
  unfold head. rewrite !firstn_nil. now destruct (0 <=? n).
Qed.

Lemma join_outer_In (ia ib : list string) (k : string) :
  In k (join_outer ia ib) -> In k ia \/ In k ib.
Proof.
  unfold join_outer, str_labels.
  destruct (list_eq_dec string_dec ia ib); [tauto |].
  destruct ia as [|a ia]; [tauto |]. destruct ib as [|b ib]; [tauto |].
  rewrite unique_sorted_In. apply in_app_or.
Qed.

Lemma series_add_index (fill : float) (a b : Series) :
  map fst (series_add fill a b) = join_outer (map fst a) (map fst b).
Proof.
  unfold series_add. rewrite map_map. apply map_id.
Qed.

Lemma NoDup_prefix {A : Type} (l1 l2 : list A) :
  NoDup (l1 ++ l2) -> NoDup l1.
Proof.
  induction l1 as [|x l1 IH]; simpl; intros H; [constructor |].
  apply NoDup_cons_iff in H as [Hx H]. constructor; [| now apply IH].
  intros Hin. apply Hx. apply in_or_app. now left.
Qed.

Lemma head_NoDup {A B : Type} (f : A -> B) (n : Z) (l : list A) :
  NoDup (map f l) -> NoDup (map f (head n l)).
Proof.
  destruct (head_prefix n l) as [rest E]. intros H.
  rewrite E, map_app in H. now apply NoDup_prefix in H.
Qed.

(** The rows of distinct titles do not overlap. *)
Lemma rows_of_titles_bound (d : list (DataRow float)) (ts : list string) :
  NoDup ts ->
  (list_sum (map (fun t => List.length (filter (has_title t) d)) ts)
   <= List.length d)%nat.
Proof.
  intros Hnd. revert d.
  induction Hnd as [|t ts Ht Hnd IH]; intros d; simpl; [lia |].
  assert (E : map (fun t' => List.length (filter (has_title t') d)) ts
            = map (fun t' => List.length
                               (filter (has_title t')
                                       (filter (fun r => negb (has_title t r))
                                               d))) ts).
  { apply map_ext_in. intros t' Ht'. f_equal.
    rewrite filter_andb. apply filter_ext. intros r.
    destruct (has_title t' r) eqn:E'; [| now rewrite andb_false_r].
    destruct (has_title t r) eqn:E''; [| reflexivity].
    apply has_title_true in E'. apply has_title_true in E''.
    exfalso. apply Ht. congruence. }
  rewrite E.
  specialize (IH (filter (fun r => negb (has_title t r)) d)).
  pose proof (filter_length (has_title t) d) as Hl.
  lia.
Qed.

Section MoreRecommendations.
Context {K : Kernel}.

Lemma top_rated_NoDup (g : Globals) (n : Z) :
  NoDup (get_top_rated_movies g n).
Proof.
  unfold get_top_rated_movies. apply head_NoDup.
  eapply Permutation_NoDup; [| apply popular_movies_NoDup].
  apply Permutation_map, Permutation_sym, sort_values_desc_perm.
Qed.

Lemma top_rated_rows (g : Globals) (n : Z) (t : string) :
  In t (get_top_rated_movies g n) ->
  (11 <= List.length (filter (has_title t) (data g)))%nat.
Proof.
  intros H. apply top_rated_In in H as (s & <- & Hs).
  apply popular_movies_In in Hs as (_ & Hc & _ & H10). rewrite Hc in H10.
  assert (Hle : (List.length (valid_ratings g (st_title s))
                 <= List.length (filter (has_title (st_title s)) (data g)))%nat).
  { unfold valid_ratings. rewrite length_map, <- filter_andb.
    apply filter_length_le. }
  lia.
Qed.

(** X3: every title of the popularity ranking stands for at least eleven
    rows of the joined data of its own: eleven times the number of
    returned titles is at most the number of joined rows. *)
Theorem top_rated_needs_eleven_rows_each (g : Globals) (n : Z) :
  11 * Z.of_nat (List.length (get_top_rated_movies g n))
  <= Z.of_nat (List.length (data g)).
Proof.
  pose proof (rows_of_titles_bound (data g) (top_rated_NoDup g n)) as Hsum.
  assert (Hmin : (11 * List.length (get_top_rated_movies g n)
                  <= list_sum
                       (map (fun t =>
                               List.length (filter (has_title t) (data g)))
                            (get_top_rated_movies g n)))%nat).
  { pose proof (@top_rated_rows g n) as Hrows. revert Hrows.
    generalize (get_top_rated_movies g n) as titles.
    induction titles as [|t ts IH]; intros Hrows; simpl; [lia |].
    assert (H1 := Hrows t (or_introl eq_refl)).
    assert (H2 : (11 * List.length ts
                  <= list_sum
                       (map (fun t =>
                               List.length (filter (has_title t) (data g)))
                            ts))%nat).
    { apply IH. intros t' Ht'. apply Hrows. now right. }
    lia. }
  lia.
Qed.

Lemma similar_scores_labels (g : Globals) (sel : list string) (k : string) :
  In k (map fst (similar_scores g sel)) -> In k (columns g).
Proof.
  unfold similar_scores.
  assert (H : forall scores,
             (forall k, In k (map fst scores) -> In k (columns g)) ->
             forall k, In k (map fst (fold_left (add_similar g) sel scores)) ->
                       In k (columns g)).
  { induction sel as [|t sel IH]; intros scores Hs; simpl; [exact Hs |].
    apply IH. intros k'. unfold add_similar.
    destruct (mem_str t (columns g)); simpl; [| apply Hs].
    rewrite series_add_index, corrwith_index. intros Hk.
    apply join_outer_In in Hk as [Hk | Hk]; [now apply Hs | exact Hk]. }
  apply H. intros k' [].
Qed.

Lemma recommendations_columns (g : Globals) (sel : list string) (n : Z)
      (t : string) :
  In t (get_recommendations g sel n) -> In t (columns g).
Proof.
  intros H. apply get_recommendations_In in H as (v & H & _).
  apply (@similar_scores_labels g sel). apply in_map_iff.
  now exists (t, v).
Qed.

Lemma recommendations_of_no_scores (g : Globals) (sel : list string) (n : Z) :
  similar_scores g sel = [] -> get_recommendations g sel n = [].
Proof.
  intros E. unfold get_recommendations.
  rewrite E, sort_values_desc_nil. unfold drop. simpl.
  now rewrite head_nil.
Qed.

Lemma similar_scores_known (g : Globals) (sel : list string) :
  similar_scores g sel = similar_scores g (known_titles g sel).
Proof.
  unfold similar_scores, known_titles. generalize (@nil (string * float)).
  induction sel as [|t sel IH]; intros s; simpl; [reflexivity |].
  destruct (mem_str t (columns g)) eqn:E; simpl.
  - apply IH.
  - unfold add_similar at 2. rewrite E. simpl. apply IH.
Qed.

(** X4: the selected titles that are not columns of the rating matrix do
    not change the recommendations: [get_recommendations] returns what it
    returns for the selected titles that are columns. *)
Theorem get_recommendations_ignores_unknown (g : Globals)
        (selected_movies : list string) (n : Z) :
  get_recommendations g selected_movies n
  = get_recommendations g (known_titles g selected_movies) n.
Proof.
  unfold get_recommendations. rewrite <- similar_scores_known.
  do 2 f_equal. unfold drop. apply filter_ext_in. intros [k v] Hin.
  apply sort_values_desc_In in Hin. simpl. f_equal.
  assert (Hk : In k (columns g)).
  { apply (@similar_scores_labels g selected_movies).
    apply in_map_iff. now exists (k, v). }
  apply eq_true_iff_eq. rewrite !mem_str_In. unfold known_titles.
  rewrite filter_In, mem_str_In. tauto.
Qed.

(** X5: for [0 <= n <= m], the first [n] titles of the result for [m] are
    the result for [n], for the popularity ranking and for the
    recommendations. *)
Theorem shorter_result_is_prefix (g : Globals) (selected_movies : list string)
        (n m : Z) :
  0 <= n <= m ->
  get_top_rated_movies g n
  = firstn (Z.to_nat n) (get_top_rated_movies g m)
  /\ get_recommendations g selected_movies n
     = firstn (Z.to_nat n) (get_recommendations g selected_movies m).
Proof.
  intros [Hn Hm].
  assert (Hm' : 0 <= m) by lia.
  assert (Hmin : Nat.min (Z.to_nat n) (Z.to_nat m) = Z.to_nat n) by lia.
  unfold get_top_rated_movies, get_recommendations.
  rewrite !(head_nonneg _ Hn), !(head_nonneg _ Hm'), <- !firstn_map.
  now rewrite !firstn_firstn, Hmin.
Qed.
End MoreRecommendations.

(** ** The loaded data and the results *)

Lemma StronglySorted_impl {A : Type} (R R' : A -> A -> Prop) (l : list A) :
  (forall a b, R a b -> R' a b) ->
  StronglySorted R l -> StronglySorted R' l.
Proof.
  intros HR. induction 1 as [|x l Hs IH Hx]; constructor; [assumption |].
  eapply Forall_impl; [| exact Hx]. intros b. apply HR.
Qed.

Lemma StronglySorted_labels {A B : Type} (R : A -> A -> Prop)
      (mk : A -> A * B) (keep : A * B -> bool) (labels : list A) :
  (forall a, fst (mk a) = a) ->
  StronglySorted R labels ->
  StronglySorted R (map fst (filter keep (map mk labels))).
Proof.
  intros Hmk. induction 1 as [|x l Hs IH Hx]; simpl; [constructor |].
  destruct (keep (mk x)); simpl; [| assumption].
  rewrite Hmk. constructor; [assumption |].
  apply Forall_forall. intros b Hb. apply in_map_iff in Hb as (e & <- & He).
  apply filter_In in He as [He _]. apply in_map_iff in He as (a & <- & Ha).
  rewrite Hmk. rewrite Forall_forall in Hx. now apply Hx.
Qed.

Lemma Z_to_int_proper (z : Z) :
  Z.to_int z <> Decimal.Pos Decimal.Nil
  /\ Z.to_int z <> Decimal.Neg Decimal.Nil.
Proof.
  destruct z as [|p|p]; simpl; split; try discriminate;
    intros [= H]; now apply (DecimalPos.Unsigned.to_uint_nonnil p).
Qed.

(** [str] of an integer determines the integer. *)
Lemma astype_str_int_inj (a b : Z) :
  astype_str (KInt a) = astype_str (KInt b) -> a = b.
Proof.
  simpl. intros E. apply DecimalZ.to_int_inj.
  destruct (Z_to_int_proper a) as [Ha Ha'].
  destruct (Z_to_int_proper b) as [Hb Hb'].
  assert (H : Some (Z.to_int a) = Some (Z.to_int b)).
  { rewrite <- (@NilZero.isi _ Ha Ha'), <- (@NilZero.isi _ Hb Hb').
    now rewrite E. }
  now inversion H.
Qed.

(** X6: when both files hold integer movie ids, the join matches equal
    integers only: a rating row has metadata exactly when its id is one of
    the metadata ids. *)
Theorem integer_ids_join_on_equality (raw_movies : list RawMovie)
        (u z : Z) (c : RatingCell) :
  (forall m, In m raw_movies -> exists z', movie_id m = KInt z') ->
  (forall a b, astype_str (KInt a) = astype_str (KInt b) <-> a = b)
  /\ (has_metadata raw_movies (mkRawRating u (KInt z) c) = true <->
      In (KInt z) (map movie_id raw_movies)).
Proof.
  intros Hint. split.
  - intros a b. split; [apply astype_str_int_inj | now intros ->].
  - unfold has_metadata. rewrite existsb_exists, in_map_iff.
    cbn [raw_movieId]. split.
    + intros (m & Hm & E). exists m. split; [| exact Hm].
      destruct (Hint m Hm) as [z' Hz]. rewrite Hz in *.
      apply String.eqb_eq in E. apply astype_str_int_inj in E. now subst.
    + intros (m & E & Hm). exists m. split; [exact Hm |].
      rewrite E. apply String.eqb_refl.
Qed.

Section LoadedResults.
Context {K : Kernel}.

Lemma cell_value_numeric (d : list (DataRow float)) (u : Z) (t : string) :
  notna (cell_value d u t) = true ->
  exists r, In r d /\ userId r = u /\ title r = Some t
            /\ notna (rating r) = true.
Proof.
  unfold cell_value, cell_ratings.
  destruct (filter _ d) as [|r rs] eqn:E; simpl; [discriminate |].
  intros _. assert (H : In r (r :: rs)) by now left.
  rewrite <- E in H. apply filter_In in H as [Hr Hc].
  apply andb_true_iff in Hc as [Hc Hv]. apply in_cell_true in Hc.
  exists r. tauto.
Qed.

Lemma columns_rated (raw_movies : list RawMovie)
      (raw_ratings : list RawRating) (t : string) :
  In t (columns (load raw_movies raw_ratings)) ->
  exists r, In r (data (load raw_movies raw_ratings))
            /\ title r = Some t /\ notna (rating r) = true.
Proof.
  unfold columns, load. cbn [user_movie_rating data pivot_table df_columns].
  intros H. apply in_map_iff in H as ([t' col] & E & H). simpl in E. subst t'.
  apply pivot_cols_In in H as [[u Hu] _].
  apply cell_value_numeric in Hu as (r & Hr & _ & Ht & Hv). now exists r.
Qed.

Lemma data_title_in_movies (raw_movies : list RawMovie)
      (raw_ratings : list RawRating) (r : DataRow float) :
  In r (data (load raw_movies raw_ratings)) ->
  In (title r) (map m_title (movies (load raw_movies raw_ratings))).
Proof.
  unfold load, coerce_rating. cbn [data movies]. intros H.
  apply in_map_iff in H as ([u k c t] & <- & H). simpl.
  apply merge_In in H as [_ H]. apply in_map_iff. now exists (mkMovie k t).
Qed.

(** X7: every title that [get_top_rated_movies] or [get_recommendations]
    returns is one of the titles that [index] hands to the form. *)
Theorem results_are_listed_titles (raw_movies : list RawMovie)
        (raw_ratings : list RawRating) (selected_movies : list string)
        (n : Z) (t : string) :
  In t (get_top_rated_movies (load raw_movies raw_ratings) n)
  \/ In t (get_recommendations (load raw_movies raw_ratings)
                               selected_movies n) ->
  In (Some t) (index (load raw_movies raw_ratings)).
Proof.
  intros H. unfold index. apply all_titles_In.
  assert (Hr : exists r, In r (data (load raw_movies raw_ratings))
                         /\ title r = Some t).
  { destruct H as [H | H].
    - apply top_rated_In in H as (s & <- & Hs).
      apply popular_movies_In in Hs as (Ht & _).
      apply in_map_iff in Ht as (r & Ht & Hr). now exists r.
    - apply recommendations_columns, columns_rated in H
        as (r & Hr & Ht & _).
      now exists r. }
  destruct Hr as (r & Hr & <-). now apply data_title_in_movies.
Qed.

(** X8: every recommended title has at least one numeric rating in the
    joined data. *)
Theorem recommended_titles_are_rated (raw_movies : list RawMovie)
        (raw_ratings : list RawRating) (selected_movies : list string)
        (n : Z) (t : string) :
  In t (get_recommendations (load raw_movies raw_ratings)
                            selected_movies n) ->
  exists r, In r (data (load raw_movies raw_ratings))
            /\ title r = Some t /\ notna (rating r) = true.
Proof.
  intros H. now apply recommendations_columns, columns_rated in H.
Qed.

(** X9: neither function returns a title twice. *)
Theorem results_have_no_duplicates (raw_movies : list RawMovie)
        (raw_ratings : list RawRating) (selected_movies : list string)
        (n : Z) :
  NoDup (get_top_rated_movies (load raw_movies raw_ratings) n)
  /\ NoDup (get_recommendations (load raw_movies raw_ratings)
                                selected_movies n).
Proof.
  split; [apply top_rated_NoDup |].
  unfold get_recommendations. apply head_NoDup.
  unfold drop. apply NoDup_map_filter.
  eapply Permutation_NoDup;
    [apply Permutation_map, Permutation_sym, sort_values_desc_perm |].
  rewrite (@similar_scores_summed _ (load raw_movies raw_ratings)
             selected_movies (load_columns_NoDup raw_movies raw_ratings)).
  unfold summed_scores.
  destruct (known_titles _ selected_movies); [constructor |].
  rewrite labelled_index. apply load_columns_NoDup.
Qed.

(** X10: the row labels (user ids) and the column labels (titles) of
    [user_movie_rating] are in ascending order. *)
Theorem user_movie_rating_labels_ascending (raw_movies : list RawMovie)
        (raw_ratings : list RawRating) :
  StronglySorted Z.le
                 (df_index (user_movie_rating (load raw_movies raw_ratings)))
  /\ StronglySorted (fun a b => String.leb a b = true)
                    (columns (load raw_movies raw_ratings)).
Proof.
  unfold columns, load.
  cbn [user_movie_rating pivot_table df_index df_columns]. split.
  - unfold pivot_rows, Z_labels, unique_sorted.
    apply StronglySorted_impl with (R := fun a b => (a <=? b) = true).
    + intros a b. apply Z.leb_le.
    + apply sort_labels_ordered.
      * intros x y. rewrite !Z.leb_le. lia.
      * intros x y z. rewrite !Z.leb_le. lia.
  - unfold pivot_cols. apply StronglySorted_labels; [reflexivity |].
    unfold str_labels, unique_sorted.
    apply sort_labels_ordered;
      [apply String.leb_total | apply string_leb_trans].
Qed.

Lemma merge_no_movies (rs : list Rating) : merge rs [] = [].
Proof.
  unfold merge. induction rs as [|r rs IH]; simpl; [reflexivity | exact IH].
Qed.

Lemma empty_data_results (g : Globals) :
  data g = [] -> df_columns (user_movie_rating g) = [] ->
  (forall n, get_top_rated_movies g n = [])
  /\ (forall sel n, get_recommendations g sel n = []).
Proof.
  intros Hd Hc. split.
  - intros n. unfold get_top_rated_movies, popular_movies, rating_stats.
    rewrite Hd. simpl. now rewrite sort_values_desc_nil, head_nil.
  - intros sel n. apply recommendations_of_no_scores.
    apply similar_scores_unknown. intros t _. unfold columns.
    now rewrite Hc.
Qed.

(** X11: when the movie file or the rating file has no rows, the joined
    data and the rating matrix are empty and both functions return the
    empty list. *)
Theorem empty_file_gives_empty_results (raw_movies : list RawMovie)
        (raw_ratings : list RawRating) :
  raw_movies = [] \/ raw_ratings = [] ->
  data (load raw_movies raw_ratings) = []
  /\ user_movie_rating (load raw_movies raw_ratings) = mkFrame [] []
  /\ (forall n, get_top_rated_movies (load raw_movies raw_ratings) n = [])
  /\ (forall sel n,
         get_recommendations (load raw_movies raw_ratings) sel n = []).
Proof.
  intros H.
  assert (Hd : data (load raw_movies raw_ratings) = []).
  { unfold load. cbn [data].
    destruct H as [-> | ->]; [now rewrite merge_no_movies | reflexivity]. }
  assert (Hm : user_movie_rating (load raw_movies raw_ratings)
               = mkFrame [] []).
  { unfold load in *. cbn [data user_movie_rating] in *. now rewrite Hd. }
  split; [exact Hd | split; [exact Hm |]].
  apply empty_data_results; [exact Hd | now rewrite Hm].
Qed.

(** ** More on the handler *)

(** X12: the page of [/recommend] lists at most five titles. *)
Theorem recommend_at_most_five (g : Globals) (form : Form) :
  (List.length (recommendations (recommend g form)) <= 5)%nat.
Proof.
  assert (H5 : forall A (l : list A), (List.length (head 5 l) <= 5)%nat).
  { intros A l. pose proof (@head_length A 5 l). lia. }
  unfold recommend.
  destruct (selected_of form); cbn [recommendations];
    unfold get_top_rated_movies, get_recommendations;
    rewrite length_map; apply H5.
Qed.

(** X13: a selection that names no column of the rating matrix (a title
    without numeric ratings, or a field holding only blanks) is served the
    recommendation page with an empty list, not the popularity ranking. *)
Theorem recommend_unknown_selection (g : Globals) (form : Form) :
  selected_of form <> [] ->
  (forall t, In t (selected_of form) -> ~ In t (columns g)) ->
  recommend g form = mkPage [] top5_text.
Proof.
  intros Hsel Hunknown. unfold recommend.
  destruct (selected_of form) as [|s sel] eqn:E; [contradiction |].
  f_equal. apply recommendations_of_no_scores.
  now apply similar_scores_unknown.
Qed.
End LoadedResults.

(** ** Results for a large [n] *)

Section LargeN.
Context {K : Kernel}.

Lemma popular_movies_rows (g : Globals) (s : Stats) :
  In s (popular_movies g) ->
  (1 <= List.length (filter (has_title (st_title s)) (data g)))%nat.
Proof.
  intros Hs. apply popular_movies_In in Hs as (_ & Hc & _ & H10).
  rewrite Hc in H10.
  assert (Hle : (List.length (valid_ratings g (st_title s))
                 <= List.length (filter (has_title (st_title s)) (data g)))%nat).
  { unfold valid_ratings. rewrite length_map, <- filter_andb.
    apply filter_length_le. }
  lia.
Qed.

Lemma popular_movies_length (g : Globals) :
  (List.length (popular_movies g) <= List.length (data g))%nat.
Proof.
  pose proof (rows_of_titles_bound (data g) (popular_movies_NoDup g)) as Hsum.
  rewrite <- (length_map st_title).
  assert (Hmin : forall l : list Stats,
             (forall s, In s l -> In s (popular_movies g)) ->
             (List.length (map st_title l)
              <= list_sum
                   (map (fun t => List.length (filter (has_title t) (data g)))
                        (map st_title l)))%nat).
  { induction l as [|s l IH]; intros Hl; simpl; [lia |].
    assert (H1 := popular_movies_rows g s (Hl s (or_introl eq_refl))).
    assert (H2 := IH (fun s' Hs' => Hl s' (or_intror Hs'))).
    lia. }
  specialize (Hmin (popular_movies g) (fun s Hs => Hs)). lia.
Qed.

Lemma head_all {A : Type} (n : Z) (l : list A) :
  Z.of_nat (List.length l) <= n -> head n l = l.
Proof.
  intros H. rewrite head_nonneg by lia. apply firstn_all2. lia.
Qed.

(** X14: with [n] at least the number of joined rows,
    [get_top_rated_movies] returns every title that has more than 10
    numeric ratings in the joined data, and only those. *)
Theorem top_rated_complete (g : Globals) (n : Z) (t : string) :
  Z.of_nat (List.length (data g)) <= n ->
  (In t (get_top_rated_movies g n) <->
   10 < Z.of_nat (List.length (valid_ratings g t))).
Proof.
  intros Hn. unfold get_top_rated_movies.
  rewrite head_all.
  2:{ rewrite (Permutation_length (sort_values_desc_perm st_mean _)).
      pose proof (popular_movies_length g). lia. }
  rewrite in_map_iff. split.
  - intros (s & <- & Hs). apply sort_values_desc_In in Hs.
    apply popular_movies_In in Hs as (_ & Hc & _ & H10). now rewrite <- Hc.
  - intros H10.
    exists (mkStats t (Z.of_nat (List.length (valid_ratings g t)))
                    (agg_mean (valid_ratings g t))).
    split; [reflexivity |]. apply sort_values_desc_In, popular_movies_In.
    simpl. repeat split; try assumption.
    unfold valid_ratings in H10. rewrite length_map in H10.
    destruct (filter _ (data g)) as [|r rs] eqn:E; [simpl in H10; lia |].
    assert (Hr : In r (r :: rs)) by now left.
    rewrite <- E in Hr. apply filter_In in Hr as [Hr Hc].
    apply andb_true_iff in Hc as [Hc _]. apply has_title_true in Hc.
    apply in_map_iff. now exists r.
Qed.

(** X15: when some selected title is a column of the rating matrix and [n]
    is at least the number of columns, [get_recommendations] returns every
    column title that is not selected, whatever its score (negative or
    missing), and nothing else. *)
Theorem recommendations_complete (raw_movies : list RawMovie)
        (raw_ratings : list RawRating) (selected_movies : list string)
        (n : Z) (t : string) :
  known_titles (load raw_movies raw_ratings) selected_movies <> [] ->
  Z.of_nat (List.length (columns (load raw_movies raw_ratings))) <= n ->
  (In t (get_recommendations (load raw_movies raw_ratings)
                             selected_movies n) <->
   In t (columns (load raw_movies raw_ratings))
   /\ ~ In t selected_movies).
Proof.
  intros Hknown Hn. set (g := load raw_movies raw_ratings) in *.
  assert (Hlabels : map fst (similar_scores g selected_movies) = columns g).
  { rewrite (@similar_scores_summed _ g selected_movies
               (load_columns_NoDup raw_movies raw_ratings)).
    unfold summed_scores.
    destruct (known_titles g selected_movies); [contradiction |].
    apply labelled_index. }
  unfold get_recommendations. rewrite head_all.
  2:{ unfold drop.
      pose proof (filter_length_le
                    (fun e : string * float =>
                       negb (mem_str (fst e) selected_movies))
                    (sort_values_desc (@snd string float)
                                      (similar_scores g selected_movies))) as Hf.
      rewrite (Permutation_length (sort_values_desc_perm _ _)) in Hf.
      rewrite <- Hlabels, length_map in Hn. lia. }
  rewrite in_map_iff. unfold drop. split.
  - intros ([k v] & E & H). simpl in E. subst k.
    apply filter_In in H as [H Hm]. apply sort_values_desc_In in H.
    simpl in Hm. apply negb_true_iff in Hm. split.
    + rewrite <- Hlabels. apply in_map_iff. now exists (t, v).
    + intros Hs. apply mem_str_In in Hs. congruence.
  - intros [Hc Hs]. rewrite <- Hlabels in Hc.
    apply in_map_iff in Hc as ([k v] & E & H). simpl in E. subst k.
    exists (t, v). split; [reflexivity |]. apply filter_In. split.
    + now apply sort_values_desc_In.
    + simpl. apply negb_true_iff. apply not_true_is_false.
      intros Hm. apply Hs. now apply mem_str_In.
Qed.
End LargeN.

(** ** The further properties on the examples *)

Lemma shorter_result_is_prefix_witness :
  0 <= 1 <= 5
  /\ get_top_rated_movies popular_example 1
     = firstn (Z.to_nat 1) (get_top_rated_movies popular_example 5)
  /\ get_recommendations popular_example ["A"] 1
     = firstn (Z.to_nat 1) (get_recommendations popular_example ["A"] 5).
Proof.
  assert (H : 0 <= 1 <= 5) by lia.
  split; [exact H |].
  exact (@shorter_result_is_prefix reference_kernel popular_example
           ["A"] 1 5 H).
Defined.

Lemma integer_ids_join_on_equality_witness :
  (forall m, In m Example.sim_movies -> exists z', movie_id m = KInt z')
  /\ (forall a b, astype_str (KInt a) = astype_str (KInt b) <-> a = b)
  /\ (has_metadata Example.sim_movies (mkRawRating 4 (KInt 99) (RNum Example.f5))
      = true <->
      In (KInt 99) (map movie_id Example.sim_movies)).
Proof.
  assert (H : forall m, In m Example.sim_movies ->
                        exists z', movie_id m = KInt z').
  { intros m [<- | [<- | [<- | [<- | []]]]]; eexists; reflexivity. }
  split; [exact H |].
  exact (@integer_ids_join_on_equality Example.sim_movies 4 99
           (RNum Example.f5) H).
Defined.

Lemma results_are_listed_titles_witness :
  (In "B" (get_top_rated_movies similarity_example 5)
   \/ In "B" (get_recommendations similarity_example ["A"] 5))
  /\ In (Some "B") (index similarity_example).
Proof.
  assert (H : In "B" (get_top_rated_movies similarity_example 5)
              \/ In "B" (get_recommendations similarity_example ["A"] 5)).
  { right. vm_compute. auto. }
  split; [exact H |].
  exact (@results_are_listed_titles reference_kernel Example.sim_movies
           Example.sim_ratings ["A"] 5 "B" H).
Defined.

Lemma recommended_titles_are_rated_witness :
  In "C" (get_recommendations similarity_example ["A"] 5)
  /\ exists r, In r (data similarity_example)
               /\ title r = Some "C" /\ notna (rating r) = true.
Proof.
  assert (H : In "C" (get_recommendations similarity_example ["A"] 5)).
  { vm_compute. auto. }
  split; [exact H |].
  exact (@recommended_titles_are_rated reference_kernel Example.sim_movies
           Example.sim_ratings ["A"] 5 "C" H).
Defined.

Lemma empty_file_gives_empty_results_witness :
  (@nil RawMovie = [] \/ Example.sim_ratings = [])
  /\ data (load [] Example.sim_ratings) = []
  /\ user_movie_rating (load [] Example.sim_ratings) = mkFrame [] []
  /\ (forall n, get_top_rated_movies (load [] Example.sim_ratings) n = [])
  /\ (forall sel n,
         get_recommendations (load [] Example.sim_ratings) sel n = []).
Proof.
  assert (H : @nil RawMovie = [] \/ Example.sim_ratings = [])
    by (left; reflexivity).
  split; [exact H |].
  exact (@empty_file_gives_empty_results reference_kernel []
           Example.sim_ratings H).
Defined.

(** A form whose only non-empty field holds a blank. *)
Lemma recommend_unknown_selection_witness :
  selected_of (mkForm (Some " ") None (Some "")) <> []
  /\ (forall t, In t (selected_of (mkForm (Some " ") None (Some ""))) ->
                ~ In t (columns similarity_example))
  /\ recommend similarity_example (mkForm (Some " ") None (Some ""))
     = mkPage [] top5_text.
Proof.
  assert (H1 : selected_of (mkForm (Some " ") None (Some "")) <> [])
    by (vm_compute; discriminate).
  assert (H2 : forall t,
             In t (selected_of (mkForm (Some " ") None (Some ""))) ->
             ~ In t (columns similarity_example)).
  { intros t [<- | []]. vm_compute. intuition discriminate. }
  split; [exact H1 | split; [exact H2 |]].
  exact (@recommend_unknown_selection reference_kernel similarity_example
           (mkForm (Some " ") None (Some "")) H1 H2).
Defined.

Lemma top_rated_complete_witness :
  Z.of_nat (List.length (data popular_example)) <= 32
  /\ (In "A" (get_top_rated_movies popular_example 32) <->
      10 < Z.of_nat (List.length (valid_ratings popular_example "A"))).
Proof.
  assert (E : List.length (data popular_example) = 32%nat)
    by (vm_compute; reflexivity).
  assert (H : Z.of_nat (List.length (data popular_example)) <= 32)
    by (rewrite E; lia).
  split; [exact H |].
  exact (@top_rated_complete reference_kernel popular_example 32 "A" H).
Defined.

Lemma recommendations_complete_witness :
  known_titles similarity_example ["A"] <> []
  /\ Z.of_nat (List.length (columns similarity_example)) <= 3
  /\ (In "C" (get_recommendations similarity_example ["A"] 3) <->
      In "C" (columns similarity_example) /\ ~ In "C" ["A"]).
Proof.
  assert (H1 : known_titles similarity_example ["A"] <> [])
    by (vm_compute; discriminate).
  assert (E : List.length (columns similarity_example) = 3%nat)
    by (vm_compute; reflexivity).
  assert (H2 : Z.of_nat (List.length (columns similarity_example)) <= 3)
    by (rewrite E; lia).
  split; [exact H1 | split; [exact H2 |]].
  exact (@recommendations_complete reference_kernel Example.sim_movies
           Example.sim_ratings ["A"] 3 "C" H1 H2).
Defined.

Lemma index_titles_ascending_witness :
  existsb text_title (map m_title (movies similarity_example)) = true
  /\ StronglySorted title_le (index similarity_example).
Proof.
  assert (H : existsb text_title (map m_title (movies similarity_example))
              = true) by (vm_compute; reflexivity).
  split; [exact H |].
  exact (@index_titles_ascending similarity_example H).
Defined.
